(** * Gallery tag filter and contribution date window of noy-portfolio

    A shallow embedding of the two pieces of list logic of the site:

    - [GalleryClient] (src/components/gallery/gallery-client.tsx): the
      tag universe [allTags] and the selection [filteredPhotos];
    - [filterLastNMonths] (the coding-stats component): the trailing
      month window applied to the GitHub contribution calendar.

    JavaScript values are modelled as far as the two functions look at
    them: a tag is a primitive value, a missing property reads as
    [undefined], a [Date] is its time value (milliseconds since the epoch,
    or NaN). The clock, the time zone and [Date.parse] belong to the
    browser and are parameters. The gallery is given twice: on values,
    and on a store of objects where sharing and allocation are visible. *)

From stdpp Require Import base decidable option list strings.
From Stdlib Require Import ZArith Lia Ascii.
From Equations Require Import Equations.

Open Scope string_scope.
Open Scope list_scope.

(** ** JavaScript values that can sit in a tag list *)

Module JS.

(** Primitive values a JSON payload typed as [string[]] can hold at run
    time, together with the [undefined] that a missing property reads
    as. *)
Inductive value : Type :=
| VUndefined
| VNull
| VStr (s : string).

#[global] Instance value_eq_dec : EqDecision value.
Proof. solve_decision. Defined.

(** [Boolean(v)]: undefined, null and the empty string are falsy. *)
Definition Boolean (v : value) : bool :=
  match v with
  | VUndefined | VNull => false
  | VStr s => if decide (s = "") then false else true
  end.

(** Outcome of an expression that may throw. *)
Inductive completion (A : Type) : Type :=
| Normal (a : A)
| TypeError.
Arguments Normal {A} a.
Arguments TypeError {A}.

Definition bind {A B} (c : completion A) (k : A → completion B) : completion B :=
  match c with
  | Normal a => k a
  | TypeError => TypeError
  end.

(** [Array.prototype.filter] with a callback that may throw: elements are
    visited left to right and the first exception aborts the call. *)
Fixpoint filterM {A} (f : A → completion bool) (l : list A) : completion (list A) :=
  match l with
  | [] => Normal []
  | x :: l' =>
      bind (f x) (λ b,
      bind (filterM f l') (λ r,
      Normal (if b then x :: r else r)))
  end.

(** Insertion into a [Set]: a value already present (SameValueZero) is
    ignored, a new one goes to the end of the iteration order. *)
Definition setAdd (acc : list value) (v : value) : list value :=
  if decide (v ∈ acc) then acc else acc ++ [v].

(** [Array.from(new Set(arr))]. *)
Definition arrayFromSet (arr : list value) : list value :=
  foldl setAdd [] arr.

(** [arr.includes(x)] on an array of primitives. *)
Definition includes (arr : list value) (x : value) : bool :=
  bool_decide (x ∈ arr).

End JS.
Import JS.

(** ** The gallery *)

Section Gallery.

(** The display fields of a photo (title, url, ...) play no part in the
    filter; they are kept as one opaque component. *)
Context {Payload : Type}.

(** [PhotoMetadata] as it arrives from [response.json()]: [tags] is
    [None] when the object has no such property. *)
Record PhotoMetadata : Type := mkPhoto {
  payload : Payload;
  tags : option (list value)
}.

(** [photo.tags] as an expression: a missing property is [undefined]. *)
Inductive tagsField : Type :=
| FUndefined
| FArray (a : list value).

Definition getTags (photo : PhotoMetadata) : tagsField :=
  match tags photo with
  | None => FUndefined
  | Some a => FArray a
  end.

(** The callback of [flatMap] returns [photo.tags]; an array is spliced
    in, anything else becomes a single element. *)
Definition flatMapTags (photos : list PhotoMetadata) : list value :=
  photos ≫= (λ photo,
    match getTags photo with
    | FArray a => a
    | FUndefined => [VUndefined]
    end).

(** [const uniqueTags = Array.from(new Set(photos.flatMap(photo => photo.tags)))] *)
Definition uniqueTags (photos : list PhotoMetadata) : list value :=
  arrayFromSet (flatMapTags photos).

(** [const allTags = ["All", ...Array.from(uniqueTags).filter(Boolean)]] *)
Definition allTags (photos : list PhotoMetadata) : list value :=
  VStr "All" :: filter (λ v, Boolean v = true) (uniqueTags photos).

(** [photo.tags.includes(selectedTag)]: calling a method on [undefined]
    throws. *)
Definition tagsInclude (selectedTag : string) (photo : PhotoMetadata)
  : completion bool :=
  match getTags photo with
  | FArray a => Normal (includes a (VStr selectedTag))
  | FUndefined => TypeError
  end.

(** [[
    const filteredPhotos =
      selectedTag === "All"
        ? photos
        : photos.filter((photo) => photo.tags.includes(selectedTag));
    ]] *)
Definition filteredPhotos (photos : list PhotoMetadata) (selectedTag : string)
  : completion (list PhotoMetadata) :=
  if decide (selectedTag = "All") then Normal photos
  else filterM (tagsInclude selectedTag) photos.

End Gallery.
Arguments PhotoMetadata Payload : clear implicits.

(** ** The gallery as objects in a store

    The same two computations with the sharing that JavaScript has: the
    state [photos] is a reference to an array of references to photo
    objects, every array method allocates its result, and nothing else is
    written. A photo object holds its fields; its [tags] array is referred
    to from nowhere else and is kept inside it. *)

Module Store.
Section Store.
Context {Payload : Type}.

Definition loc : Type := nat.

Inductive object : Type :=
| OPhoto (photo : PhotoMetadata Payload)
| OPhotos (elements : list loc)
| OValues (elements : list value)
| OSet (elements : list value).

(** Location [l] holds the [l]-th object allocated. *)
Definition heap : Type := list object.

(** A computation reads and extends the store and returns or throws. *)
Definition M (A : Type) : Type := heap → heap * completion A.

Definition retS {A} (a : A) : M A := λ h, (h, Normal a).

Definition bindS {A B} (m : M A) (k : A → M B) : M B :=
  λ h, match m h with
       | (h', Normal a) => k a h'
       | (h', TypeError) => (h', TypeError)
       end.

Notation "'let!' x ':=' m 'in' k" := (bindS m (λ x, k))
  (at level 10, x name, m at level 100, k at level 200).

Definition throw {A} : M A := λ h, (h, TypeError).

Definition lift {A} (c : completion A) : M A := λ h, (h, c).

Definition alloc (o : object) : M loc := λ h, (h ++ [o], Normal (length h)).

(** Reading through a reference. A reference to nothing cannot arise in
    JavaScript; here it throws. *)
Definition deref (l : loc) : M object :=
  λ h, (h, match h !! l with Some o => Normal o | None => TypeError end).

(** Writing to an object in place, as [arr.push(x)], [arr.sort()] or an
    assignment to a field does. The gallery never does it; the operation
    is here to say what it would mean if it did. *)
Definition assign (l : loc) (o : object) : M unit :=
  λ h, (<[l := o]> h, Normal ()).

(** The elements of an array of photos, of an array of values, the
    fields of a photo. *)
Definition derefPhotos (l : loc) : M (list loc) :=
  let! o := deref l in match o with OPhotos ls => retS ls | _ => throw end.

Definition derefValues (l : loc) : M (list value) :=
  let! o := deref l in match o with OValues vs => retS vs | _ => throw end.

Definition derefPhoto (l : loc) : M (PhotoMetadata Payload) :=
  let! o := deref l in match o with OPhoto photo => retS photo | _ => throw end.

(** Array methods run their callback on the elements from left to
    right. *)
Fixpoint mapS {A B} (f : A → M B) (l : list A) : M (list B) :=
  match l with
  | [] => retS []
  | x :: l' => let! y := f x in let! ys := mapS f l' in retS (y :: ys)
  end.

Fixpoint filterS {A} (f : A → M bool) (l : list A) : M (list A) :=
  match l with
  | [] => retS []
  | x :: l' => let! b := f x in let! r := filterS f l' in retS (if b then x :: r else r)
  end.

(** [photos.flatMap((photo) => photo.tags)] *)
Definition flatMapTags (photos : loc) : M loc :=
  let! ls := derefPhotos photos in
  let! parts := mapS (λ l, let! photo := derefPhoto l in
                     retS (match getTags photo with
                           | FArray a => a
                           | FUndefined => [VUndefined]
                           end)) ls in
  alloc (OValues (concat parts)).

(** [new Set(arr)] *)
Definition newSet (arr : loc) : M loc :=
  let! vs := derefValues arr in alloc (OSet (foldl setAdd [] vs)).

(** [Array.from(x)] for a [Set] or an array of values. *)
Definition arrayFrom (x : loc) : M loc :=
  let! o := deref x in
  match o with
  | OSet vs | OValues vs => alloc (OValues vs)
  | _ => throw
  end.

(** [arr.filter(Boolean)] *)
Definition filterBoolean (arr : loc) : M loc :=
  let! vs := derefValues arr in alloc (OValues (filter (λ v, Boolean v = true) vs)).

(** [["All", ...arr]] *)
Definition consAll (arr : loc) : M loc :=
  let! vs := derefValues arr in alloc (OValues (VStr "All" :: vs)).

(** [[
    const uniqueTags = Array.from(new Set(photos.flatMap((photo) => photo.tags)));
    const allTags = ["All", ...Array.from(uniqueTags).filter(Boolean)];
    ]] *)
Definition uniqueTags (photos : loc) : M loc :=
  let! flat := flatMapTags photos in let! set := newSet flat in arrayFrom set.

Definition allTags (photos : loc) : M loc :=
  let! unique := uniqueTags photos in
  let! copy := arrayFrom unique in
  let! truthy := filterBoolean copy in
  consAll truthy.

(** [[
    const filteredPhotos =
      selectedTag === "All"
        ? photos
        : photos.filter((photo) => photo.tags.includes(selectedTag));
    ]] *)
Definition filteredPhotos (photos : loc) (selectedTag : string) : M loc :=
  if decide (selectedTag = "All") then retS photos
  else
    let! ls := derefPhotos photos in
    let! kept := filterS (λ l, let! photo := derefPhoto l in
                         lift (tagsInclude selectedTag photo)) ls in
    alloc (OPhotos kept).

(** One rendering of the component computes both. *)
Definition render (photos : loc) (selectedTag : string) : M (loc * loc) :=
  let! tags := allTags photos in
  let! shown := filteredPhotos photos selectedTag in
  retS (tags, shown).

(** The records that the array at [photos] refers to. *)
Definition photoAt (h : heap) (l : loc) : option (PhotoMetadata Payload) :=
  match h !! l with
  | Some (OPhoto photo) => Some photo
  | _ => None
  end.

Definition recordsAt (h : heap) (photos : loc)
  : option (list (PhotoMetadata Payload)) :=
  match h !! photos with
  | Some (OPhotos ls) => mapM (photoAt h) ls
  | _ => None
  end.

Definition valuesAt (h : heap) (l : loc) : option (list value) :=
  match h !! l with
  | Some (OValues vs) => Some vs
  | _ => None
  end.

(** A computation that leaves every object of the store it starts in
    as it is and only adds new ones behind them. *)
Definition extends {A} (m : M A) : Prop := ∀ h, ∃ ext, (m h).1 = h ++ ext.

(** A computation whose result, when it returns, is an object that
    was not in the store it started in. *)
Definition fresh (m : M loc) : Prop :=
  ∀ h, match m h with
       | (h', Normal l) => length h ≤ l < length h'
       | (_, TypeError) => True
       end.

End Store.
Arguments object Payload : clear implicits.
Arguments heap Payload : clear implicits.
Arguments M Payload A : clear implicits.
End Store.

(** ** Time values and the [Date] operations used by the calendar filter

    The definitions follow the abstract operations of ECMAScript (section
    "Date Objects"): a time value is a number of milliseconds since
    1970-01-01T00:00:00Z, or NaN, here [None]. Arguments are integers; the
    source only ever passes integers to them. *)

Module JSDate.
Local Open Scope Z_scope.

Definition msPerDay : Z := 86400000.
Definition msPerHour : Z := 3600000.

Definition Day (t : Z) : Z := t / msPerDay.
Definition TimeWithinDay (t : Z) : Z := t mod msPerDay.

Definition DaysInYear (y : Z) : Z :=
  if decide (y mod 4 ≠ 0) then 365
  else if decide (y mod 100 ≠ 0) then 366
  else if decide (y mod 400 ≠ 0) then 365
  else 366.

Definition DayFromYear (y : Z) : Z :=
  365 * (y - 1970) + (y - 1969) / 4 - (y - 1901) / 100 + (y - 1601) / 400.

Definition TimeFromYear (y : Z) : Z := msPerDay * DayFromYear y.

(** The largest year whose start is not after [t]. A year has 365.2425
    days on average, which puts the quotient at most one year off. *)
Definition YearFromTime (t : Z) : Z :=
  let y := 1970 + (400 * Day t) / 146097 in
  if decide (Day t < DayFromYear y) then y - 1
  else if decide (DayFromYear (y + 1) ≤ Day t) then y + 1
  else y.

(** 1 in a leap year, 0 otherwise. *)
Definition InLeapYear (t : Z) : Z :=
  if decide (DaysInYear (YearFromTime t) = 366) then 1 else 0.

Definition DayWithinYear (t : Z) : Z := Day t - DayFromYear (YearFromTime t).

(** Day number within the year on which month [m] (0 = January) starts;
    [leap] is 1 in a leap year. *)
Definition monthStart (leap m : Z) : Z :=
  match m with
  | 0 => 0
  | 1 => 31
  | 2 => 59 + leap
  | 3 => 90 + leap
  | 4 => 120 + leap
  | 5 => 151 + leap
  | 6 => 181 + leap
  | 7 => 212 + leap
  | 8 => 243 + leap
  | 9 => 273 + leap
  | 10 => 304 + leap
  | 11 => 334 + leap
  | _ => 365 + leap
  end.

Definition MonthFromTime (t : Z) : Z :=
  let d := DayWithinYear t in
  let leap := InLeapYear t in
  if decide (d < 31) then 0
  else if decide (d < 59 + leap) then 1
  else if decide (d < 90 + leap) then 2
  else if decide (d < 120 + leap) then 3
  else if decide (d < 151 + leap) then 4
  else if decide (d < 181 + leap) then 5
  else if decide (d < 212 + leap) then 6
  else if decide (d < 243 + leap) then 7
  else if decide (d < 273 + leap) then 8
  else if decide (d < 304 + leap) then 9
  else if decide (d < 334 + leap) then 10
  else 11.

Definition DateFromTime (t : Z) : Z :=
  DayWithinYear t - monthStart (InLeapYear t) (MonthFromTime t) + 1.

(** [MakeDay(year, month, date)]: months outside 0..11 carry into the
    year, days outside the month carry into the neighbouring months. *)
Definition MakeDay (year month date : Z) : Z :=
  let ym := year + month / 12 in
  let mn := month mod 12 in
  let leap := if decide (DaysInYear ym = 366) then 1 else 0 in
  DayFromYear ym + monthStart leap mn + date - 1.

Definition MakeDate (day time : Z) : Z := day * msPerDay + time.

(** [TimeClip]: a time value more than 8.64e15 ms from the epoch is NaN. *)
Definition TimeClip (t : Z) : option Z :=
  if decide (Z.abs t ≤ 8640000000000000) then Some t else None.

(** What the engine and its surroundings decide: the offset of local time
    ([LocalTZA(t, isUTC)], in ms) and the reading of a date string
    ([Date.parse], NaN as [None]). *)
Class Host : Type := {
  LocalTZA : Z → bool → Z;
  parse : string → option Z
}.

Section WithHost.
Context `{Host}.

Definition LocalTime (t : Z) : Z := t + LocalTZA t true.
Definition UTC (t : Z) : Z := t - LocalTZA t false.

(** The accessors of a valid [Date] with time value [t]. *)
Definition getFullYear (t : Z) : Z := YearFromTime (LocalTime t).
Definition getMonth (t : Z) : Z := MonthFromTime (LocalTime t).
Definition getDate (t : Z) : Z := DateFromTime (LocalTime t).

(** [new Date(year, month, date)]: the given day at 00:00:00.000 local
    time; a year from 0 to 99 stands for 1900 + year. *)
Definition newDateYMD (year month date : Z) : option Z :=
  let yr := if decide (0 ≤ year ≤ 99) then 1900 + year else year in
  TimeClip (UTC (MakeDate (MakeDay yr month date) 0)).

(** [new Date(s)] for a string [s]. *)
Definition newDateString (s : string) : option Z :=
  parse s ≫= TimeClip.

End WithHost.

(** [a >= b] on two [Date] objects compares their time values; with a
    NaN on either side the answer is [false]. *)
Definition ge (a b : option Z) : bool :=
  match a, b with
  | Some x, Some y => bool_decide (y ≤ x)
  | _, _ => false
  end.

(** *** A host that reads date-only strings

    [YYYY-MM-DD] is the form in which the contribution calendar dates its
    days. ECMAScript reads it as midnight UTC. This host is a strict one:
    a month or day that does not exist makes the string invalid, and no
    other form is recognised. Engines differ there: V8 carries the 30th of
    February into March and reads many other forms. On the dates of
    existing days in this form all agree. *)

Definition digit (c : ascii) : option Z :=
  let n := Z.of_nat (nat_of_ascii c) in
  if decide (48 ≤ n ≤ 57) then Some (n - 48) else None.

Definition DaysInMonth (year month : Z) : Z :=
  let leap := if decide (DaysInYear year = 366) then 1 else 0 in
  monthStart leap (month + 1) - monthStart leap month.

Definition parseDateOnly (s : string) : option Z :=
  match String.list_ascii_of_string s with
  | [y1; y2; y3; y4; "-"%char; m1; m2; "-"%char; d1; d2] =>
      a ← digit y1; b ← digit y2; c ← digit y3; d ← digit y4;
      e ← digit m1; f ← digit m2; g ← digit d1; h ← digit d2;
      let year := 1000 * a + 100 * b + 10 * c + d in
      let month := 10 * e + f in
      let date := 10 * g + h in
      if decide (1 ≤ month ≤ 12 ∧ 1 ≤ date ≤ DaysInMonth year (month - 1))
      then Some (MakeDate (MakeDay year (month - 1) date) 0)
      else None
  | _ => None
  end.

(** Local time a fixed number of milliseconds ahead of UTC. *)
Definition fixedOffset (tza : Z) : Host :=
  {| LocalTZA := λ _ _, tza; parse := parseDateOnly |}.

End JSDate.
Import JSDate.

(** ** The contribution calendar *)

(** One day of the calendar as [react-github-calendar] hands it to
    [transformData]. *)
Record ContributionDay : Type := mkDay {
  date : string;
  count : Z
}.

Section CodingStats.
Context `{Host}.
Open Scope Z_scope.

(** [[
    while (cutoffMonth < 0) {
      cutoffMonth += 12;
      cutoffYear -= 1;
    }
    ]]
    The pair is (cutoffMonth, cutoffYear) after the loop. *)
Equations? adjustYear (cutoffMonth cutoffYear : Z) : Z * Z
  by wf (Z.to_nat (- cutoffMonth)) lt :=
  adjustYear cutoffMonth cutoffYear with decide (cutoffMonth < 0) := {
    | left _ => adjustYear (cutoffMonth + 12) (cutoffYear - 1)
    | right _ => (cutoffMonth, cutoffYear)
  }.
Proof. lia. Qed.

(** [const cutoffDate = new Date(cutoffYear, cutoffMonth, today.getDate())]
    with [today] the reading of the clock and [months] the window. *)
Definition cutoffDate (today months : Z) : option Z :=
  let cutoffMonth := getMonth today - months in
  let cutoffYear := getFullYear today in
  let '(cutoffMonth, cutoffYear) := adjustYear cutoffMonth cutoffYear in
  newDateYMD cutoffYear cutoffMonth (getDate today).

(** [[
    const filterLastNMonths = (contributions, months = 11) => {
      const today = new Date();
      ...
      return contributions.filter((day) => {
        const date = new Date(day.date);
        return date >= cutoffDate;
      });
    };
    ]]
    [months] is [None] when the caller passes no second argument. *)
Definition filterLastNMonths (today : Z) (contributions : list ContributionDay)
    (months : option Z) : list ContributionDay :=
  let months := default 11 months in
  let cutoffDate := cutoffDate today months in
  filter (λ day, ge (newDateString (date day)) cutoffDate = true) contributions.

End CodingStats.

(** A zone whose offset from UTC is the same at all times. *)
Definition constantOffset `{Host} (tza : Z) : Prop := ∀ t b, LocalTZA t b = tza.

(** ** Reference notions for the tag filter *)

(** Distinct elements of a list in order of first appearance: the head
    comes first and is then dropped from what follows. *)
Fixpoint firstSeen (l : list value) : list value :=
  match l with
  | [] => []
  | x :: l' => x :: filter (λ y, y ≠ x) (firstSeen l')
  end.

Section GallerySpec.
Context {Payload : Type}.
Implicit Types (photo : PhotoMetadata Payload) (photos : list (PhotoMetadata Payload)).

(** The tag list of a record, empty when the record has none. *)
Definition tagList photo : list value := default [] (tags photo).

(** All tag lists laid end to end, records left to right. *)
Definition allTagValues photos : list value := photos ≫= tagList.

(** The tag values that [Boolean] lets through, in the same order. *)
Definition truthyTagValues photos : list value :=
  filter (λ v, Boolean v = true) (allTagValues photos).

(** The record carries the tag [T] (exact string equality). *)
Definition HasTag (T : string) photo : Prop := VStr T ∈ tagList photo.

#[global] Instance HasTag_dec T photo : Decision (HasTag T photo).
Proof. unfold HasTag. apply _. Defined.

(** The record has a [tags] array. *)
Definition tagged photo : Prop := is_Some (tags photo).

(** No record uses the reserved word as a tag of its own. *)
Definition sentinelFree photos : Prop := VStr "All" ∉ allTagValues photos.

End GallerySpec.

(** ** The gallery component

    What [GalleryClient] does around the two computations above: it reads
    the selected tag from the query string, loads the photos once, and
    renders either a placeholder or the page. *)

Module URLSearchParams.

(** The query string as the list of its name-value pairs, in order. *)
Definition t : Type := list (string * string).

(** [params.get(name)]: the value of the first pair with that name, or
    [null]. *)
Fixpoint get (params : t) (name : string) : option string :=
  match params with
  | [] => None
  | (k, v) :: rest => if decide (k = name) then Some v else get rest name
  end.

End URLSearchParams.

Module Component.
Section Component.
Context {Payload : Type}.

(** [const selectedTag = searchParams ? searchParams.get("tag") ?? "All" : "All"];
    [useSearchParams()] may return [null]. *)
Definition selectedTag (searchParams : option URLSearchParams.t) : string :=
  match searchParams with
  | Some params => default "All" (URLSearchParams.get params "tag")
  | None => "All"
  end.

(** What [response.json()] can resolve to: the array of photos that the
    state is typed for, or any other JSON value. *)
Inductive json : Type :=
| JArray (records : list (PhotoMetadata Payload))
| JOther.

(** The two pieces of state, [useState<PhotoMetadata[]>([])] and
    [useState(true)]. *)
Record state : Type := mkState {
  photos : json;
  loading : bool
}.

Definition initialState : state := {| photos := JArray []; loading := true |}.

Definition setPhotos (data : json) (s : state) : state :=
  {| photos := data; loading := loading s |}.

Definition setLoading (b : bool) (s : state) : state :=
  {| photos := photos s; loading := b |}.

(** How the request to [/api/admin/gallery] turns out. *)
Inductive body : Type :=
| BodyJSON (data : json)
| BodyUnreadable (error : string).

Inductive fetchOutcome : Type :=
| FetchRejected (error : string)
| FetchResponse (ok : bool) (content : body).

(** A step that settles or throws an error with a message. *)
Inductive attempt (A : Type) : Type :=
| Fulfilled (a : A)
| Rejected (error : string).
Arguments Fulfilled {A} a.
Arguments Rejected {A} error.

(** [[
    setLoading(true);
    const response = await fetch("/api/admin/gallery");
    if (!response.ok) {
      throw new Error("Failed to fetch photos");
    }
    const data = await response.json();
    setPhotos(data);
    ]] *)
Definition tryFetch (r : fetchOutcome) (s : state) : state * attempt unit :=
  let s := setLoading true s in
  match r with
  | FetchRejected error => (s, Rejected error)
  | FetchResponse ok content =>
      if negb ok then (s, Rejected "Failed to fetch photos")
      else match content with
           | BodyUnreadable error => (s, Rejected error)
           | BodyJSON data => (setPhotos data s, Fulfilled ())
           end
  end.

(** [[
    try { ... }
    catch (error) { console.error("Error fetching photos:", error); }
    finally { setLoading(false); }
    ]]
    The second component is what has been written to the console. *)
Definition fetchPhotos (r : fetchOutcome) (s : state) (console : list string)
  : state * list string :=
  let '(s, a) := tryFetch r s in
  let console :=
    match a with
    | Rejected error => console ++ ["Error fetching photos: " +:+ error]
    | Fulfilled _ => console
    end in
  (setLoading false s, console).

(** What the component returns. *)
Inductive view : Type :=
| LoadingView
| GalleryView (header : string) (selectedTag : string) (blogTags : list value)
    (shown : list (PhotoMetadata Payload)).

(** The body of [GalleryClient] after the hooks: [allTags] and
    [filteredPhotos] are computed first, then [loading] decides what is
    returned. On a value that is not an array [photos.flatMap] is not a
    function. *)
Definition GalleryClient (header : string) (s : state)
    (searchParams : option URLSearchParams.t) : completion view :=
  let selectedTag := selectedTag searchParams in
  match photos s with
  | JOther => TypeError
  | JArray records =>
      let allTags := allTags records in
      bind (filteredPhotos records selectedTag) (λ filteredPhotos,
      if loading s then Normal LoadingView
      else Normal (GalleryView header selectedTag allTags filteredPhotos))
  end.

(** The outcome is one of the failures that the [catch] block handles. *)
Definition failed (r : fetchOutcome) : Prop :=
  match r with
  | FetchRejected _ => True
  | FetchResponse ok content =>
      ok = false ∨ match content with BodyUnreadable _ => True | BodyJSON _ => False end
  end.

End Component.
Arguments json Payload : clear implicits.
Arguments state Payload : clear implicits.
Arguments body Payload : clear implicits.
Arguments fetchOutcome Payload : clear implicits.
Arguments view Payload : clear implicits.
End Component.

(** ** Data of the worked examples *)

(** A gallery of two tagged photos and one with an empty tag list. *)
Definition exampleGallery : list (PhotoMetadata string) :=
  [ mkPhoto "dunes.jpg" (Some [VStr "a"; VStr "b"]);
    mkPhoto "harbour.jpg" (Some [VStr "b"]);
    mkPhoto "untitled.jpg" (Some []) ].

(** The same gallery as objects: the three photos at locations 0 to 2 and
    the array [photos] at location 3. *)
Definition exampleStore : Store.heap string :=
  (Store.OPhoto <$> exampleGallery) ++ [Store.OPhotos [0; 1; 2]].

(** A photo whose JSON object has no [tags] property. *)
Definition untaggedPhoto : PhotoMetadata string := mkPhoto "scan-0042.jpg" None.

(** A tagged photo followed by the one without [tags]. *)
Definition taggedPhoto : PhotoMetadata string :=
  mkPhoto "dunes.jpg" (Some [VStr "a"; VStr "b"]).
Definition mixedGallery : list (PhotoMetadata string) := [taggedPhoto; untaggedPhoto].

(** A browser on UTC and one four hours behind it (New York in summer). *)
Definition utcHost : Host := fixedOffset 0.
Definition newYorkHost : Host := fixedOffset (-4 * msPerHour)%Z.

(** Time values of a few instants, in ms since the epoch. *)
Definition t_2024_01_10 : Z := 1704844800000%Z.  (* 2024-01-10T00:00:00Z *)
Definition t_2024_06_15 : Z := 1718409600000%Z.  (* 2024-06-15T00:00:00Z *)
Definition t_2024_06_15_noon : Z := (t_2024_06_15 + 12 * msPerHour)%Z.
Definition t_2024_06_15_noon_newYork : Z := (t_2024_06_15 + 16 * msPerHour)%Z.

(** Three days of the calendar around the cutoff of the default window. *)
Definition july14 : ContributionDay := mkDay "2023-07-14" 3%Z.
Definition july15 : ContributionDay := mkDay "2023-07-15" 1%Z.
Definition july16 : ContributionDay := mkDay "2023-07-16" 4%Z.

(** A day whose date cannot be read. *)
Definition undatedDay : ContributionDay := mkDay "yesterday" 2%Z.

(** A query string with a page number and two [tag] pairs. *)
Definition exampleParams : URLSearchParams.t :=
  [("page", "2"); ("tag", "b"); ("tag", "a")].

(** The state after a load that brought the three photos and one without
    a [tags] property. *)
Definition loadedState : Component.state string :=
  {| Component.photos := Component.JArray (exampleGallery ++ [untaggedPhoto]);
     Component.loading := false |}.

(** The thirtieth of March 2024, 00:00 UTC. *)
Definition t_2024_03_30 : Z := 1711756800000%Z.

(** * Properties *)

Section FirstSeen.
Implicit Types (l acc : list value) (v : value).

Lemma firstSeen_elem_of l v : v ∈ firstSeen l ↔ v ∈ l.
Proof.
  induction l as [|x l IH]; simpl; [done|].
  rewrite !elem_of_cons, list_elem_of_filter, IH.
  destruct (decide (v = x)); intuition congruence.
Qed.

Lemma firstSeen_NoDup l : NoDup (firstSeen l).
Proof.
  induction l as [|x l IH]; simpl; [constructor|].
  apply NoDup_cons. split.
  - rewrite list_elem_of_filter. tauto.
  - by apply NoDup_filter.
Qed.

Lemma firstSeen_filter (P : value → Prop) `{!∀ v, Decision (P v)} l :
  filter P (firstSeen l) = firstSeen (filter P l).
Proof.
  induction l as [|x l IH]; simpl; [done|].
  rewrite !filter_cons. destruct (decide (P x)); simpl.
  - rewrite <- IH, !list_filter_filter. f_equal.
    apply list_filter_iff. tauto.
  - rewrite <- IH, list_filter_filter.
    apply list_filter_iff. intros y. split; [tauto|].
    intros Hy. split; [done|]. by intros ->.
Qed.

Lemma firstSeen_sublist l : sublist (firstSeen l) l.
Proof.
  induction l as [|x l IH]; simpl; [constructor|].
  apply sublist_skip. etrans; [apply sublist_filter|exact IH].
Qed.

Lemma filter_lookup_order {A} (P : A → Prop) `{!∀ x, Decision (P x)}
    (l : list A) i j (u v : A) :
  filter P l !! i = Some u → filter P l !! j = Some v → i < j →
  ∃ i' j', l !! i' = Some u ∧ l !! j' = Some v ∧ i' < j'.
Proof.
  revert i j. induction l as [|x l IH]; intros i j Hi Hj Hlt; [done|].
  rewrite filter_cons in Hi, Hj. destruct (decide (P x)) as [HP|HP].
  - destruct j as [|j]; [lia|]. simpl in Hj. destruct i as [|i]; simpl in Hi.
    + assert (v ∈ l) as Hv.
      { eapply list_elem_of_filter, list_elem_of_lookup_2, Hj. }
      apply list_elem_of_lookup_1 in Hv as [j' Hj'].
      exists 0, (S j'). simpl. repeat split; [done|done|lia].
    + destruct (IH i j Hi Hj) as (i' & j' & ? & ? & ?); [lia|].
      exists (S i'), (S j'). simpl. repeat split; [done|done|lia].
  - destruct (IH i j Hi Hj Hlt) as (i' & j' & ? & ? & ?).
    exists (S i'), (S j'). simpl. repeat split; [done|done|lia].
Qed.

(** An element listed earlier occurs in the list before any occurrence of
    an element listed later. *)
Lemma firstSeen_order (l : list value) i j u v :
  firstSeen l !! i = Some u → firstSeen l !! j = Some v → i < j →
  ∃ k, l !! k = Some u ∧ ∀ k', l !! k' = Some v → k < k'.
Proof.
  revert i j. induction l as [|x l IH]; intros i j Hi Hj Hlt; [done|].
  simpl in Hi, Hj. destruct j as [|j]; [lia|]. simpl in Hj.
  assert (v ≠ x) as Hvx.
  { apply list_elem_of_lookup_2, list_elem_of_filter in Hj. tauto. }
  destruct i as [|i]; simpl in Hi.
  - injection Hi as ->. exists 0. split; [done|].
    intros [|k'] Hk'; [|lia]. simpl in Hk'. congruence.
  - destruct (filter_lookup_order _ _ _ _ _ _ Hi Hj) as (i' & j' & Hi' & Hj' & Hlt');
      [lia|].
    destruct (IH i' j' Hi' Hj' Hlt') as (k & Hk & Hlater).
    exists (S k). split; [done|].
    intros [|k'] Hk'; simpl in Hk'; [congruence|].
    apply Hlater in Hk'. lia.
Qed.

(** The accumulator of the [Set] under construction. *)
Lemma foldl_setAdd acc l :
  foldl setAdd acc l = acc ++ filter (λ v, v ∉ acc) (firstSeen l).
Proof.
  revert acc. induction l as [|x l IH]; intros acc; simpl.
  - by rewrite app_nil_r.
  - rewrite IH. unfold setAdd. destruct (decide (x ∈ acc)) as [Hin|Hin].
    + rewrite filter_cons_False by tauto.
      rewrite list_filter_filter. f_equal.
      apply list_filter_iff. intros y. split; [|tauto].
      intros Hy. split; [done|]. by intros ->.
    + rewrite filter_cons_True by done.
      rewrite <- app_assoc. simpl. do 2 f_equal.
      rewrite list_filter_filter. apply list_filter_iff. intros y.
      rewrite not_elem_of_app, list_elem_of_singleton. tauto.
Qed.

Lemma arrayFromSet_firstSeen l : arrayFromSet l = firstSeen l.
Proof.
  unfold arrayFromSet. rewrite foldl_setAdd. simpl.
  induction (firstSeen l) as [|y k IH]; [done|].
  rewrite filter_cons_True by apply not_elem_of_nil. by f_equal.
Qed.

End FirstSeen.

Section GalleryFacts.
Context {Payload : Type}.
Implicit Types (photo p : PhotoMetadata Payload)
               (photos : list (PhotoMetadata Payload)) (T : string) (v : value).

Lemma filterM_total {A} (f : A → completion bool) (g : A → Prop)
    `{!∀ x, Decision (g x)} (l : list A) :
  Forall (λ x, f x = Normal (bool_decide (g x))) l →
  filterM f l = Normal (filter g l).
Proof.
  induction 1 as [|x l Hx _ IH]; simpl; [done|].
  rewrite Hx, IH. simpl. rewrite filter_cons.
  by destruct (decide (g x)) as [Hg|Hg];
    [rewrite bool_decide_eq_true_2|rewrite bool_decide_eq_false_2].
Qed.

(** One exception is enough to abort the whole [filter] call. *)
Lemma filterM_throws {A} (f : A → completion bool) (l : list A) x :
  x ∈ l → f x = TypeError → filterM f l = TypeError.
Proof.
  induction 1 as [x l|x y l _ IH]; intros Hx; simpl.
  - by rewrite Hx.
  - rewrite (IH Hx). by destruct (f y).
Qed.

Lemma tagsInclude_tagged T photo :
  tagged photo → tagsInclude T photo = Normal (bool_decide (HasTag T photo)).
Proof.
  intros [a Ha]. destruct photo as [pl tg]. simpl in Ha. subst tg.
  reflexivity.
Qed.

Lemma tagsInclude_untagged T photo :
  tags photo = None → tagsInclude T photo = TypeError.
Proof. intros Ha. unfold tagsInclude, getTags. by rewrite Ha. Qed.

Lemma filteredPhotos_tagged photos T :
  T ≠ "All" → Forall tagged photos →
  filteredPhotos photos T = Normal (filter (HasTag T) photos).
Proof.
  intros HT Hall. unfold filteredPhotos. rewrite decide_False by done.
  apply filterM_total. eapply Forall_impl; [exact Hall|].
  intros photo. apply tagsInclude_tagged.
Qed.

(** A record without [tags] makes every selection other than "All" throw. *)
Lemma filteredPhotos_untagged photos T photo :
  T ≠ "All" → photo ∈ photos → tags photo = None →
  filteredPhotos photos T = TypeError.
Proof.
  intros HT Hin Hnone. unfold filteredPhotos. rewrite decide_False by done.
  eapply filterM_throws; [exact Hin|]. by apply tagsInclude_untagged.
Qed.

(** The [undefined] that [flatMap] collects for a record without [tags]
    does not survive [filter(Boolean)]. *)
Lemma flatMapTags_truthy photos :
  filter (λ v, Boolean v = true) (flatMapTags photos)
  = filter (λ v, Boolean v = true) (allTagValues photos).
Proof.
  unfold flatMapTags, allTagValues.
  induction photos as [|photo photos IH]; [done|].
  rewrite !bind_cons, !filter_app, IH. f_equal.
  unfold getTags, tagList. by destruct (tags photo).
Qed.

Lemma allTags_firstSeen photos :
  allTags photos = VStr "All" :: firstSeen (truthyTagValues photos).
Proof.
  unfold allTags, uniqueTags.
  by rewrite arrayFromSet_firstSeen, firstSeen_filter, flatMapTags_truthy.
Qed.

Lemma elem_of_allTagValues photos v :
  v ∈ allTagValues photos ↔ ∃ photo, photo ∈ photos ∧ v ∈ tagList photo.
Proof.
  unfold allTagValues. rewrite list_elem_of_bind.
  split; intros (photo & ? & ?); exists photo; tauto.
Qed.

Lemma elem_of_allTags_tail photos v :
  v ∈ tail (allTags photos)
  ↔ Boolean v = true ∧ ∃ photo, photo ∈ photos ∧ v ∈ tagList photo.
Proof.
  rewrite allTags_firstSeen. simpl. unfold truthyTagValues.
  by rewrite firstSeen_elem_of, list_elem_of_filter, elem_of_allTagValues.
Qed.

End GalleryFacts.

(** ** The selection made by a tag *)

Section GalleryClaims.
Context {Payload : Type}.
Implicit Types (photo p : PhotoMetadata Payload)
               (photos : list (PhotoMetadata Payload)) (T : string) (v : value).

(** On records that all carry a [tags] array, and for a tag other than
    "All", [filteredPhotos] returns exactly the records that have the tag,
    in their original order: every record of the output has the tag,
    every record of the input with the tag is in the output, and the
    output is a subsequence of the input. *)
Theorem filteredPhotos_subsequence photos T :
  T ≠ "All" → Forall tagged photos →
  ∃ out, filteredPhotos photos T = Normal out
       ∧ out = filter (HasTag T) photos
       ∧ Forall (HasTag T) out
       ∧ (∀ photo, photo ∈ photos → HasTag T photo → photo ∈ out)
       ∧ sublist out photos.
Proof.
  intros HT Hall. exists (filter (HasTag T) photos).
  split; [by apply filteredPhotos_tagged|]. split; [done|].
  split; [|split].
  - apply Forall_forall. intros photo. rewrite list_elem_of_filter. tauto.
  - intros photo Hin Htag. by apply list_elem_of_filter.
  - apply sublist_filter.
Qed.

(** C2. Selecting "All" returns the collection itself, whatever the
    records look like. *)
Theorem filteredPhotos_All photos : filteredPhotos photos "All" = Normal photos.
Proof. reflexivity. Qed.

(** C4. [allTags] is "All" followed by the distinct truthy tag values of
    the records in order of first appearance: the part after "All" has no
    repetition, holds exactly the truthy values found in some tag list,
    and lists a value before another only if it occurs in the tag lists,
    read record by record, before every occurrence of the other; for no
    records it is just "All"; and when no record uses "All" as a tag of
    its own the whole list is free of repetition. *)
Theorem allTags_universe photos :
  allTags photos = VStr "All" :: firstSeen (truthyTagValues photos)
  ∧ allTags (@nil (PhotoMetadata Payload)) = [VStr "All"]
  ∧ NoDup (tail (allTags photos))
  ∧ (∀ v, v ∈ tail (allTags photos)
          ↔ Boolean v = true ∧ ∃ photo, photo ∈ photos ∧ v ∈ tagList photo)
  ∧ (∀ i j u v,
       tail (allTags photos) !! i = Some u → tail (allTags photos) !! j = Some v →
       i < j →
       ∃ k, truthyTagValues photos !! k = Some u
            ∧ ∀ k', truthyTagValues photos !! k' = Some v → k < k')
  ∧ sublist (tail (allTags photos)) (allTagValues photos)
  ∧ (sentinelFree photos → NoDup (allTags photos)).
Proof.
  split; [apply allTags_firstSeen|]. split; [reflexivity|].
  rewrite allTags_firstSeen. simpl tail.
  split; [apply firstSeen_NoDup|].
  split; [intros v; rewrite <- elem_of_allTags_tail, allTags_firstSeen; done|].
  split; [apply firstSeen_order|].
  split.
  - etrans; [apply firstSeen_sublist|apply sublist_filter].
  - intros Hfree. apply NoDup_cons. split.
    + rewrite firstSeen_elem_of. unfold truthyTagValues.
      rewrite list_elem_of_filter. intros [_ Hin]. by apply Hfree.
    + apply firstSeen_NoDup.
Qed.

(** On records that all carry a [tags] array, every entry of [allTags]
    other than "All" selects at least one record. *)
Theorem allTags_entry_selects photos T :
  Forall tagged photos → T ≠ "All" → VStr T ∈ allTags photos →
  ∃ out, filteredPhotos photos T = Normal out ∧ out ≠ [].
Proof.
  intros Hall HT Hin. exists (filter (HasTag T) photos).
  split; [by apply filteredPhotos_tagged|].
  rewrite allTags_firstSeen in Hin. apply elem_of_cons in Hin as [Heq|Hin].
  { congruence. }
  apply firstSeen_elem_of, list_elem_of_filter in Hin as [_ Hin].
  apply elem_of_allTagValues in Hin as (photo & Hphoto & Htag).
  intros Hnil. by apply (filter_nil_not_elem_of _ _ photo Hnil Htag).
Qed.

End GalleryClaims.

Example allTags_exampleGallery :
  allTags exampleGallery = [VStr "All"; VStr "a"; VStr "b"].
Proof. reflexivity. Qed.

Example filteredPhotos_exampleGallery_b :
  filteredPhotos exampleGallery "b" = Normal (take 2 exampleGallery).
Proof. reflexivity. Qed.

Example filteredPhotos_exampleGallery_c :
  filteredPhotos exampleGallery "c" = Normal [].
Proof. reflexivity. Qed.

(** ** The calendar arithmetic behind the [Date] accessors *)

Section Calendar.
Open Scope Z_scope.
Implicit Types (t d y m : Z).

Lemma DaysInYear_cases y : DaysInYear y = 365 ∨ DaysInYear y = 366.
Proof. unfold DaysInYear. repeat case_decide; auto. Qed.

Lemma DayFromYear_succ y : DayFromYear (y + 1) = DayFromYear y + DaysInYear y.
Proof.
  unfold DayFromYear, DaysInYear.
  repeat case_decide; Z.div_mod_to_equations; lia.
Qed.

Lemma DayFromYear_le y n : 0 ≤ n → DayFromYear y + 365 * n ≤ DayFromYear (y + n).
Proof.
  revert n. apply (natlike_ind (λ n, DayFromYear y + 365 * n ≤ DayFromYear (y + n))).
  - replace (y + 0) with y by lia. lia.
  - intros k Hk IH. replace (y + Z.succ k) with (y + k + 1) by lia.
    rewrite DayFromYear_succ. destruct (DaysInYear_cases (y + k)); lia.
Qed.

Lemma DayFromYear_lt y y' : y < y' → DayFromYear y < DayFromYear y'.
Proof.
  intros Hlt. pose proof (DayFromYear_le y (y' - y)) as Hle.
  replace (y + (y' - y)) with y' in Hle by lia. lia.
Qed.

Lemma DayFromYear_estimate d :
  d - 366 ≤ DayFromYear (1970 + 400 * d / 146097) ≤ d + 1.
Proof. unfold DayFromYear. Z.div_mod_to_equations. lia. Qed.

Lemma YearFromTime_bracket t :
  DayFromYear (YearFromTime t) ≤ Day t < DayFromYear (YearFromTime t + 1).
Proof.
  unfold YearFromTime. generalize (Day t). intros d. cbv zeta.
  pose proof (DayFromYear_estimate d) as Hest.
  set (y := 1970 + 400 * d / 146097) in *.
  pose proof (DayFromYear_succ y) as Hy.
  pose proof (DayFromYear_succ (y + 1)) as Hy1.
  pose proof (DayFromYear_succ (y - 1)) as Hy0.
  replace (y - 1 + 1) with y in * by lia.
  destruct (DaysInYear_cases y), (DaysInYear_cases (y + 1)),
    (DaysInYear_cases (y - 1)); repeat case_decide;
    try replace (y - 1 + 1) with y by lia; lia.
Qed.

Lemma YearFromTime_unique t y :
  DayFromYear y ≤ Day t < DayFromYear (y + 1) → YearFromTime t = y.
Proof.
  intros Hy. pose proof (YearFromTime_bracket t) as HY.
  destruct (Z.lt_trichotomy (YearFromTime t) y) as [Hlt|[Heq|Hgt]]; [|done|].
  - assert (DayFromYear (YearFromTime t + 1) ≤ DayFromYear y); [|lia].
    destruct (decide (YearFromTime t + 1 = y)) as [->|]; [lia|].
    apply Z.lt_le_incl, DayFromYear_lt. lia.
  - assert (DayFromYear (y + 1) ≤ DayFromYear (YearFromTime t)); [|lia].
    destruct (decide (y + 1 = YearFromTime t)) as [->|]; [lia|].
    apply Z.lt_le_incl, DayFromYear_lt. lia.
Qed.

Lemma DayWithinYear_range t : 0 ≤ DayWithinYear t < DaysInYear (YearFromTime t).
Proof.
  unfold DayWithinYear. pose proof (YearFromTime_bracket t).
  rewrite DayFromYear_succ in *. lia.
Qed.

Lemma MonthFromTime_range t : 0 ≤ MonthFromTime t ≤ 11.
Proof. unfold MonthFromTime. repeat case_decide; lia. Qed.

Lemma monthStart_DateFromTime t :
  monthStart (InLeapYear t) (MonthFromTime t) + DateFromTime t - 1 = DayWithinYear t.
Proof. unfold DateFromTime. lia. Qed.

(** Year, month and day of a time value put back together give its day. *)
Lemma MakeDay_fields t :
  MakeDay (YearFromTime t) (MonthFromTime t) (DateFromTime t) = Day t.
Proof.
  pose proof (MonthFromTime_range t) as Hm.
  unfold MakeDay. rewrite Z.div_small, Z.mod_small, Z.add_0_r by lia.
  fold (InLeapYear t). unfold DateFromTime, DayWithinYear. lia.
Qed.

Lemma DateFromTime_range t : 1 ≤ DateFromTime t ≤ 31.
Proof.
  pose proof (DayWithinYear_range t) as Hd.
  unfold DateFromTime, MonthFromTime, InLeapYear in *.
  destruct (DaysInYear_cases (YearFromTime t)) as [Hy|Hy]; rewrite Hy in *;
    repeat case_decide; simpl; lia.
Qed.

(** The first of a month is found again by the accessors. *)
Lemma MakeDay_first y m :
  0 ≤ m ≤ 11 →
  let t := MakeDate (MakeDay y m 1) 0 in
  YearFromTime t = y ∧ MonthFromTime t = m ∧ DateFromTime t = 1.
Proof.
  intros Hm t.
  assert (Day t = MakeDay y m 1) as Hday.
  { unfold t, MakeDate, Day. rewrite Z.add_0_r. by apply Z.div_mul. }
  assert (MakeDay y m 1 = DayFromYear y
            + monthStart (if decide (DaysInYear y = 366) then 1 else 0) m) as Hmk.
  { unfold MakeDay. rewrite Z.div_small, Z.mod_small, Z.add_0_r by lia. lia. }
  assert (YearFromTime t = y) as Hyear.
  { apply YearFromTime_unique. rewrite Hday, Hmk, DayFromYear_succ.
    destruct (DaysInYear_cases y) as [Hy|Hy]; rewrite Hy; case_decide; try lia;
      assert (m = 0 ∨ m = 1 ∨ m = 2 ∨ m = 3 ∨ m = 4 ∨ m = 5 ∨ m = 6 ∨ m = 7
              ∨ m = 8 ∨ m = 9 ∨ m = 10 ∨ m = 11) as Hcases by lia;
      repeat (destruct Hcases as [->|Hcases]); try subst m; simpl; lia. }
  split; [done|].
  assert (MonthFromTime t = m) as Hmonth.
  { unfold MonthFromTime, DayWithinYear, InLeapYear. rewrite Hyear, Hday, Hmk.
    assert (m = 0 ∨ m = 1 ∨ m = 2 ∨ m = 3 ∨ m = 4 ∨ m = 5 ∨ m = 6 ∨ m = 7
            ∨ m = 8 ∨ m = 9 ∨ m = 10 ∨ m = 11) as Hcases by lia.
    repeat (destruct Hcases as [->|Hcases]); try subst m; simpl;
      repeat case_decide; lia. }
  split; [done|].
  unfold DateFromTime, DayWithinYear. rewrite Hmonth.
  unfold InLeapYear. rewrite Hyear, Hday, Hmk. lia.
Qed.

End Calendar.

(** ** The month window *)

Section CodingStatsFacts.
Context `{Host}.
Open Scope Z_scope.
Implicit Types (today months t : Z) (day : ContributionDay)
               (contributions : list ContributionDay).

(** One turn of the loop. *)
Lemma adjustYear_loop (cutoffMonth cutoffYear : Z) :
  adjustYear cutoffMonth cutoffYear
  = if decide (cutoffMonth < 0) then adjustYear (cutoffMonth + 12) (cutoffYear - 1)
    else (cutoffMonth, cutoffYear).
Proof.
  rewrite adjustYear_equation_1.
  by destruct (decide (cutoffMonth < 0)).
Qed.

(** The loop as a whole: a negative month is reduced modulo 12 and the
    years it stands for are taken off the year. *)
Lemma adjustYear_closed (cutoffMonth cutoffYear : Z) :
  adjustYear cutoffMonth cutoffYear
  = if decide (cutoffMonth < 0)
    then (cutoffMonth mod 12, cutoffYear + cutoffMonth / 12)
    else (cutoffMonth, cutoffYear).
Proof.
  funelim (adjustYear cutoffMonth cutoffYear).
  - rewrite H0. repeat case_decide; try lia.
    all: f_equal; Z.div_mod_to_equations; lia.
  - case_decide; [lia|done].
Qed.

Lemma getMonth_range today : 0 ≤ getMonth today ≤ 11.
Proof. apply MonthFromTime_range. Qed.

Lemma getDate_range today : 1 ≤ getDate today ≤ 31.
Proof. apply DateFromTime_range. Qed.

Lemma elem_of_filterLastNMonths today contributions (months : option Z) day :
  day ∈ filterLastNMonths today contributions months
  ↔ day ∈ contributions
    ∧ ge (newDateString (date day)) (cutoffDate today (default 11 months)) = true.
Proof. unfold filterLastNMonths. rewrite list_elem_of_filter. tauto. Qed.

Lemma ge_true (a b : option Z) :
  ge a b = true ↔ ∃ x y, a = Some x ∧ b = Some y ∧ y ≤ x.
Proof.
  destruct a as [x|], b as [y|]; simpl.
  - rewrite bool_decide_eq_true. split; [eauto|]. by intros (? & ? & [= ->] & [= ->] & ?).
  - split; [done|]. by intros (? & ? & _ & ? & _).
  - split; [done|]. by intros (? & ? & ? & _).
  - split; [done|]. by intros (? & ? & ? & _).
Qed.

(** With a window of no months the loop does not run and the fields of
    [today] are handed back to the constructor. *)
Lemma cutoffDate_0 today :
  ¬ (0 ≤ getFullYear today ≤ 99) →
  cutoffDate today 0
  = TimeClip (UTC (LocalTime today - TimeWithinDay (LocalTime today))).
Proof.
  intros Hyear. unfold cutoffDate. rewrite Z.sub_0_r, adjustYear_closed.
  pose proof (getMonth_range today). rewrite decide_False by lia.
  unfold newDateYMD. rewrite decide_False by done.
  unfold getFullYear, getMonth, getDate. rewrite MakeDay_fields.
  do 2 f_equal. unfold MakeDate, Day, TimeWithinDay.
  generalize (LocalTime today). intros t. unfold msPerDay.
  Z.div_mod_to_equations. lia.
Qed.

End CodingStatsFacts.

Section CodingStatsClaims.
Context `{Host}.
Open Scope Z_scope.
Implicit Types (today months t : Z) (day : ContributionDay)
               (contributions : list ContributionDay).

(** C5. For a window of [months] ≥ 0 the cutoff is built from the pair
    that the loop leaves: the loop adds 12 to the month and takes 1 off
    the year for as long as the month is negative, which leaves a month
    from 0 to 11 and the same count of months overall; the cutoff is
    [new Date(cutoffYear, cutoffMonth, today.getDate())]; a day is kept
    exactly when it is in the input and its date is not before the
    cutoff, and the kept days stay in order. For a window of 14 months
    on 2024-01-10 the loop runs twice and the cutoff is the tenth of
    November 2022. *)
Theorem filterLastNMonths_cutoff today months contributions :
  0 ≤ months →
  ∃ cutoffMonth cutoffYear,
    adjustYear (getMonth today - months) (getFullYear today) = (cutoffMonth, cutoffYear)
    ∧ (∀ m y, adjustYear m y
              = if decide (m < 0) then adjustYear (m + 12) (y - 1) else (m, y))
    ∧ 0 ≤ cutoffMonth ≤ 11
    ∧ 12 * cutoffYear + cutoffMonth = 12 * getFullYear today + getMonth today - months
    ∧ cutoffDate today months = newDateYMD cutoffYear cutoffMonth (getDate today)
    ∧ (∀ day, day ∈ filterLastNMonths today contributions (Some months)
              ↔ day ∈ contributions
                ∧ ge (newDateString (date day)) (cutoffDate today months) = true)
    ∧ sublist (filterLastNMonths today contributions (Some months)) contributions
    ∧ (months = 14 → getFullYear today = 2024 → getMonth today = 0 →
       getDate today = 10 →
       adjustYear (0 - 14) 2024 = adjustYear (-2) 2023
       ∧ adjustYear (-2) 2023 = adjustYear 10 2022
       ∧ cutoffYear = 2022 ∧ cutoffMonth = 10
       ∧ cutoffDate today months = newDateYMD 2022 10 10
       ∧ Some (MakeDate (MakeDay 2022 10 10) 0) = parseDateOnly "2022-11-10").
Proof.
  intros Hmonths. pose proof (getMonth_range today) as Hm.
  destruct (adjustYear (getMonth today - months) (getFullYear today))
    as [cutoffMonth cutoffYear] eqn:Hadj.
  exists cutoffMonth, cutoffYear. split; [done|].
  split; [apply adjustYear_loop|].
  assert (0 ≤ cutoffMonth ≤ 11
          ∧ 12 * cutoffYear + cutoffMonth
            = 12 * getFullYear today + getMonth today - months) as [Hrange Hsum].
  { rewrite adjustYear_closed in Hadj.
    case_decide; injection Hadj as <- <-.
    - split; Z.div_mod_to_equations; lia.
    - lia. }
  do 2 (split; [done|]).
  split; [unfold cutoffDate; by rewrite Hadj|].
  split; [intros day; apply elem_of_filterLastNMonths|].
  split; [apply sublist_filter|].
  intros -> Hy Hmo Hd. rewrite Hy, Hmo in *.
  split; [by rewrite adjustYear_loop|]. split; [by rewrite adjustYear_loop|].
  assert (cutoffYear = 2022 ∧ cutoffMonth = 10) as [-> ->] by lia.
  do 2 (split; [done|]). split; [|reflexivity].
  unfold cutoffDate. by rewrite Hy, Hmo, Hadj, Hd.
Qed.

(** C7, as the code has it. With a window of no months the cutoff is not
    the instant [today] but the start of its day: the local time of
    [today] with the time of day taken off, read back as local time; a
    day is kept exactly when its date is not before that midnight. Where
    the zone offset is the same at both ends the cutoff is [today] less
    its local time of day. (The clock is taken not to stand in the years
    0 to 99, which the [Date] constructor reads as 1900 to 1999.) *)
Theorem cutoffDate_0_midnight today contributions :
  ¬ (0 ≤ getFullYear today ≤ 99) →
  cutoffDate today 0
    = TimeClip (UTC (LocalTime today - TimeWithinDay (LocalTime today)))
  ∧ (LocalTZA (LocalTime today - TimeWithinDay (LocalTime today)) false
       = LocalTZA today true →
     cutoffDate today 0 = TimeClip (today - TimeWithinDay (LocalTime today)))
  ∧ (∀ day, day ∈ filterLastNMonths today contributions (Some 0)
            ↔ day ∈ contributions
              ∧ ge (newDateString (date day))
                   (TimeClip (UTC (LocalTime today - TimeWithinDay (LocalTime today))))
                = true).
Proof.
  intros Hyear. pose proof (cutoffDate_0 today Hyear) as Hcut.
  split; [done|]. split.
  - intros Hzone. rewrite Hcut. f_equal. unfold UTC. rewrite Hzone.
    unfold LocalTime. lia.
  - intros day. by rewrite elem_of_filterLastNMonths, <- Hcut.
Qed.

Lemma newDateString_invalid (s : string) :
  parse s = None ∨ (∃ t, parse s = Some t ∧ 8640000000000000 < Z.abs t) →
  newDateString s = None.
Proof.
  unfold newDateString. intros [->|(t & -> & Ht)]; [done|]. simpl.
  unfold TimeClip. by rewrite decide_False by lia.
Qed.

(** C8. A day whose date string the engine cannot read, or reads as a
    time outside the range of [Date], is left out, whatever the clock and
    the window; the call returns, and the days around it are filtered as
    if it were not there. *)
Theorem filterLastNMonths_invalid_date today (months : option Z) day :
  parse (date day) = None
  ∨ (∃ t, parse (date day) = Some t ∧ 8640000000000000 < Z.abs t) →
  (∀ contributions, day ∉ filterLastNMonths today contributions months)
  ∧ (∀ before after,
       filterLastNMonths today (before ++ day :: after) months
       = filterLastNMonths today (before ++ after) months).
Proof.
  intros Hbad. apply newDateString_invalid in Hbad.
  assert (ge (newDateString (date day))
             (cutoffDate today (default 11 months)) ≠ true) as Hout.
  { rewrite Hbad. simpl. done. }
  split.
  - intros contributions. rewrite elem_of_filterLastNMonths. tauto.
  - intros before after. unfold filterLastNMonths.
    by rewrite !filter_app, filter_cons_False.
Qed.

End CodingStatsClaims.

(** ** The worked examples, evaluated *)

Section Evaluated.
Open Scope Z_scope.

Example parseDateOnly_july15 : parseDateOnly "2023-07-15" = Some 1689379200000.
Proof. reflexivity. Qed.

Example parseDateOnly_noFebruary30 : parseDateOnly "2023-02-30" = None.
Proof. reflexivity. Qed.

Example utc_fields_2024_06_15 :
  @getFullYear utcHost t_2024_06_15_noon = 2024
  ∧ @getMonth utcHost t_2024_06_15_noon = 5
  ∧ @getDate utcHost t_2024_06_15_noon = 15.
Proof. by vm_compute. Qed.

(** The default window on 2024-06-15 in a browser on UTC. *)
Example filterLastNMonths_default_utc :
  @cutoffDate utcHost t_2024_06_15_noon 11 = parseDateOnly "2023-07-15"
  ∧ @filterLastNMonths utcHost t_2024_06_15_noon [july14; july15; july16] None
    = [july15; july16].
Proof. by vm_compute. Qed.

(** A day of the month that the cutoff month does not have rolls over:
    one month back from the 30th of March 2024 is the 1st of March. *)
Example cutoffDate_rolls_over :
  parseDateOnly "2024-03-30" = Some 1711756800000
  ∧ @cutoffDate utcHost 1711756800000 1 = parseDateOnly "2024-03-01".
Proof. by vm_compute. Qed.

(** C6. The same call at noon of 2024-06-15 in New York: the clock reads
    2024-06-15, the window is the default of 11 months, the cutoff is
    midnight of 2023-07-15 in New York, which is 04:00 UTC, and the day
    dated 2023-07-15, read as midnight UTC, falls before it. *)
Theorem filterLastNMonths_default_newYork :
  @getFullYear newYorkHost t_2024_06_15_noon_newYork = 2024
  ∧ @getMonth newYorkHost t_2024_06_15_noon_newYork = 5
  ∧ @getDate newYorkHost t_2024_06_15_noon_newYork = 15
  ∧ @cutoffDate newYorkHost t_2024_06_15_noon_newYork 11
    = Some (1689379200000 + 4 * msPerHour)
  ∧ @newDateString newYorkHost (date july15) = Some 1689379200000
  ∧ @filterLastNMonths newYorkHost t_2024_06_15_noon_newYork
      [july14; july15; july16] None
    = [july16].
Proof. by vm_compute. Qed.

(** C7 does not hold of the code. At noon of 2024-06-15 (UTC) a window of
    no months has its cutoff at midnight, twelve hours before the clock,
    and the day dated 2024-06-15, which lies before the clock, is kept. *)
Lemma cutoffDate_0_not_today :
  ¬ (@cutoffDate utcHost t_2024_06_15_noon 0 = Some t_2024_06_15_noon
     ∧ ∀ day, day ∈ @filterLastNMonths utcHost t_2024_06_15_noon
                      [mkDay "2024-06-15" 5] (Some 0)
              ↔ day ∈ [mkDay "2024-06-15" 5]
                ∧ ∃ t, @newDateString utcHost (date day) = Some t
                       ∧ t_2024_06_15_noon ≤ t).
Proof.
  intros [Hcut _]. vm_compute in Hcut. discriminate Hcut.
Qed.

Example cutoffDate_0_keeps_morning :
  @cutoffDate utcHost t_2024_06_15_noon 0 = Some t_2024_06_15
  ∧ @newDateString utcHost "2024-06-15" = Some t_2024_06_15
  ∧ t_2024_06_15 < t_2024_06_15_noon
  ∧ @filterLastNMonths utcHost t_2024_06_15_noon [mkDay "2024-06-15" 5] (Some 0)
    = [mkDay "2024-06-15" 5].
Proof. by vm_compute. Qed.

(** C3. A gallery with one photo that has no [tags] property: the tag
    universe is computed, the selection of any tag but "All" throws. *)
Theorem filteredPhotos_untagged_TypeError :
  allTags [untaggedPhoto] = [VStr "All"]
  ∧ filteredPhotos [untaggedPhoto] "nature" = TypeError
  ∧ filteredPhotos (exampleGallery ++ [untaggedPhoto]) "b" = TypeError.
Proof. by vm_compute. Qed.

(** C1. The selection is not the subsequence of the records with the tag
    for every collection. In a gallery of a photo tagged "a" and a photo
    without a [tags] property, the records with the tag "a" are the first
    photo alone, but selecting "a" throws and returns nothing. *)
Theorem filteredPhotos_mixedGallery_no_subsequence :
  filter (HasTag "a") mixedGallery = [taggedPhoto]
  ∧ filteredPhotos mixedGallery "a" = TypeError
  ∧ ¬ ∃ out, filteredPhotos mixedGallery "a" = Normal out.
Proof.
  split; [reflexivity|]. split; [reflexivity|].
  intros [out Hout]. vm_compute in Hout. discriminate Hout.
Qed.

(** C10. An entry of the tag universe need not select a record. In the
    same gallery "a" is offered, being a tag of the first photo, and
    selecting it throws on the second: no record is shown. *)
Theorem allTags_mixedGallery_entry_throws :
  allTags mixedGallery = [VStr "All"; VStr "a"; VStr "b"]
  ∧ VStr "a" ∈ allTags mixedGallery
  ∧ filteredPhotos mixedGallery "a" = TypeError
  ∧ ¬ ∃ out, filteredPhotos mixedGallery "a" = Normal out ∧ out ≠ [].
Proof.
  split; [reflexivity|]. split.
  { rewrite list_elem_of_In. vm_compute. tauto. }
  split; [reflexivity|].
  intros (out & Hout & _). vm_compute in Hout. discriminate Hout.
Qed.

(** With "All" as a tag of a photo the universe lists it twice. *)
Example allTags_sentinel_as_tag :
  allTags [mkPhoto "all.jpg" (Some [VStr "All"])] = [VStr "All"; VStr "All"].
Proof. reflexivity. Qed.

End Evaluated.

(** ** The default window across time zones *)

Section Zones.
Open Scope Z_scope.

Lemma Day_MakeDate d : Day (MakeDate d 0) = d.
Proof. unfold Day, MakeDate. rewrite Z.add_0_r. by apply Z.div_mul. Qed.

(** The date fields depend on the day only. *)
Lemma fields_same_Day t t' :
  Day t = Day t' →
  YearFromTime t = YearFromTime t'
  ∧ MonthFromTime t = MonthFromTime t'
  ∧ DateFromTime t = DateFromTime t'.
Proof.
  intros Hday.
  assert (YearFromTime t = YearFromTime t') as Hy.
  { unfold YearFromTime. by rewrite Hday. }
  assert (MonthFromTime t = MonthFromTime t') as Hm.
  { unfold MonthFromTime, DayWithinYear, InLeapYear. by rewrite Hday, Hy. }
  repeat split; [done..|].
  unfold DateFromTime, DayWithinYear, InLeapYear. by rewrite Hday, Hy, Hm.
Qed.

(** In a zone [tza] ms ahead of UTC, on any instant of the local day
    2024-06-15, the default window keeps the day dated 2023-07-15 exactly
    when the zone is not behind UTC. *)
Lemma filterLastNMonths_default_zone tza today :
  - msPerDay < tza < msPerDay →
  Day (today + tza) = Day t_2024_06_15 →
  @filterLastNMonths (fixedOffset tza) today [july14; july15; july16] None
  = if decide (0 ≤ tza) then [july15; july16] else [july16].
Proof.
  intros Htza Hday.
  destruct (fields_same_Day _ _ Hday) as (Hy & Hm & Hd).
  assert (@cutoffDate (fixedOffset tza) today 11 = Some (1689379200000 - tza)) as Hcut.
  { unfold cutoffDate, getMonth, getFullYear, getDate, LocalTime. simpl.
    rewrite Hy, Hm, Hd.
    replace (MonthFromTime t_2024_06_15 - 11) with (-6) by (vm_compute; reflexivity).
    replace (YearFromTime t_2024_06_15) with 2024 by (vm_compute; reflexivity).
    replace (DateFromTime t_2024_06_15) with 15 by (vm_compute; reflexivity).
    rewrite adjustYear_closed. simpl.
    unfold newDateYMD, UTC. simpl.
    replace (MakeDate (MakeDay (2024 + -6 / 12) (-6 mod 12) 15) 0)
      with 1689379200000 by (vm_compute; reflexivity).
    unfold TimeClip, msPerDay in *. by rewrite decide_True by lia. }
  unfold filterLastNMonths. simpl default. rewrite Hcut.
  assert (∀ s c, parseDateOnly s = Some c → Z.abs c ≤ 8640000000000000 →
            @newDateString (fixedOffset tza) s = Some c) as Hparse.
  { intros s c Hs Hc. unfold newDateString. simpl. rewrite Hs. simpl.
    unfold TimeClip. by apply decide_True. }
  rewrite !filter_cons, filter_nil. unfold july14, july15, july16. simpl date.
  rewrite (Hparse "2023-07-14" 1689292800000) by ((vm_compute; reflexivity) || lia).
  rewrite (Hparse "2023-07-15" 1689379200000) by ((vm_compute; reflexivity) || lia).
  rewrite (Hparse "2023-07-16" 1689465600000) by ((vm_compute; reflexivity) || lia).
  unfold ge, msPerDay in *.
  rewrite (bool_decide_eq_false_2 (_ ≤ 1689292800000)) by lia.
  rewrite (bool_decide_eq_true_2 (_ ≤ 1689465600000)) by lia.
  destruct (decide (0 ≤ tza));
    [rewrite bool_decide_eq_true_2 by lia|rewrite bool_decide_eq_false_2 by lia];
    reflexivity.
Qed.

End Zones.

(** ** The store is only extended *)

Section StoreFacts.
Context {Payload : Type}.
Local Abbreviation M := (Store.M Payload).
Local Abbreviation heap := (Store.heap Payload).
Local Abbreviation object := (Store.object Payload).
Implicit Types (h ext : heap) (l photos : Store.loc) (o : object)
               (R : list (PhotoMetadata Payload)).

Lemma extends_retS {A} (a : A) : Store.extends (Store.retS (Payload:=Payload) a).
Proof. intros h. exists []. by rewrite app_nil_r. Qed.

Lemma extends_throw {A} : Store.extends (@Store.throw Payload A).
Proof. intros h. exists []. by rewrite app_nil_r. Qed.

Lemma extends_lift {A} (c : completion A) : Store.extends (Store.lift (Payload:=Payload) c).
Proof. intros h. exists []. by rewrite app_nil_r. Qed.

Lemma extends_deref l : Store.extends (Store.deref (Payload:=Payload) l).
Proof. intros h. exists []. by rewrite app_nil_r. Qed.

Lemma extends_alloc o : Store.extends (Store.alloc o).
Proof. intros h. by exists [o]. Qed.

(** A write in place is not of this kind. *)
Lemma assign_not_extends :
  ¬ Store.extends (Store.assign (Payload:=Payload) 0 (Store.OValues [])).
Proof.
  intros Hext. destruct (Hext [Store.OSet []]) as [ext Hh]. discriminate Hh.
Qed.

Lemma extends_bindS {A B} (m : M A) (k : A → M B) :
  Store.extends m → (∀ a, Store.extends (k a)) → Store.extends (Store.bindS m k).
Proof.
  intros Hm Hk h. unfold Store.bindS.
  destruct (Hm h) as [ext1 Hext1]. destruct (m h) as [h1 [a|]]; simpl in *; subst h1.
  - destruct (Hk a (h ++ ext1)) as [ext2 Hext2].
    exists (ext1 ++ ext2). by rewrite Hext2, app_assoc.
  - by exists ext1.
Qed.

Lemma extends_mapS {A B} (f : A → M B) (xs : list A) :
  (∀ x, Store.extends (f x)) → Store.extends (Store.mapS f xs).
Proof.
  intros Hf. induction xs as [|x xs IH]; simpl.
  - apply extends_retS.
  - apply extends_bindS; [done|]. intros y.
    apply extends_bindS; [done|]. intros ys. apply extends_retS.
Qed.

Lemma extends_filterS {A} (f : A → M bool) (xs : list A) :
  (∀ x, Store.extends (f x)) → Store.extends (Store.filterS f xs).
Proof.
  intros Hf. induction xs as [|x xs IH]; simpl.
  - apply extends_retS.
  - apply extends_bindS; [done|]. intros y.
    apply extends_bindS; [done|]. intros ys. apply extends_retS.
Qed.

End StoreFacts.

Create HintDb store.
#[global] Hint Resolve extends_retS extends_throw extends_lift extends_deref
  extends_alloc extends_bindS extends_mapS extends_filterS : store.

(** Unfolds an operation into its binds and settles each step. *)
Ltac extends_steps :=
  repeat first
    [ apply extends_bindS; [|intros ?]
    | apply extends_mapS; intros ?
    | apply extends_filterS; intros ?
    | match goal with |- Store.extends (match ?o with _ => _ end) => destruct o end
    | solve [auto with store] ].

Section StoreOperations.
Context {Payload : Type}.
Implicit Types (l photos : Store.loc).

Lemma extends_derefPhotos l : Store.extends (Store.derefPhotos (Payload:=Payload) l).
Proof. unfold Store.derefPhotos. extends_steps. Qed.

Lemma extends_derefValues l : Store.extends (Store.derefValues (Payload:=Payload) l).
Proof. unfold Store.derefValues. extends_steps. Qed.

Lemma extends_derefPhoto l : Store.extends (Store.derefPhoto (Payload:=Payload) l).
Proof. unfold Store.derefPhoto. extends_steps. Qed.

Hint Resolve extends_derefPhotos extends_derefValues extends_derefPhoto : store.

Lemma extends_allTags photos : Store.extends (Store.allTags (Payload:=Payload) photos).
Proof.
  unfold Store.allTags, Store.uniqueTags, Store.flatMapTags, Store.newSet,
    Store.arrayFrom, Store.filterBoolean, Store.consAll.
  extends_steps.
Qed.

Lemma extends_filteredPhotos photos T :
  Store.extends (Store.filteredPhotos (Payload:=Payload) photos T).
Proof.
  unfold Store.filteredPhotos. case_decide; [apply extends_retS|]. extends_steps.
Qed.

Lemma extends_render photos T :
  Store.extends (Store.render (Payload:=Payload) photos T).
Proof.
  unfold Store.render.
  apply extends_bindS; [apply extends_allTags|]. intros tags.
  apply extends_bindS; [apply extends_filteredPhotos|]. intros shown.
  apply extends_retS.
Qed.

End StoreOperations.

(** ** The store computes what the values say *)

Section StoreRefinement.
Context {Payload : Type}.
Local Abbreviation M := (Store.M Payload).
Local Abbreviation heap := (Store.heap Payload).
Local Abbreviation object := (Store.object Payload).
Implicit Types (h ext : heap) (l photos : Store.loc) (o : object)
               (ls : list Store.loc) (vs : list value)
               (R : list (PhotoMetadata Payload)).

Lemma bindS_run {A B} (m : M A) (k : A → M B) h h' a :
  m h = (h', Normal a) → Store.bindS m k h = k a h'.
Proof. intros Hm. unfold Store.bindS. by rewrite Hm. Qed.

Lemma bindS_throws {A B} (m : M A) (k : A → M B) h h' :
  m h = (h', TypeError) → Store.bindS m k h = (h', TypeError).
Proof. intros Hm. unfold Store.bindS. by rewrite Hm. Qed.

Lemma lookup_snoc {A} (xs : list A) (x : A) : (xs ++ [x]) !! length xs = Some x.
Proof. by apply list_lookup_middle. Qed.

Lemma derefPhotos_run h l ls :
  h !! l = Some (Store.OPhotos ls) → Store.derefPhotos l h = (h, Normal ls).
Proof. intros Hl. unfold Store.derefPhotos, Store.bindS, Store.deref. by rewrite Hl. Qed.

Lemma derefValues_run h l vs :
  h !! l = Some (Store.OValues vs) → Store.derefValues l h = (h, Normal vs).
Proof. intros Hl. unfold Store.derefValues, Store.bindS, Store.deref. by rewrite Hl. Qed.

Lemma derefPhoto_run h l photo :
  Store.photoAt h l = Some photo → Store.derefPhoto l h = (h, Normal photo).
Proof.
  unfold Store.photoAt, Store.derefPhoto, Store.bindS, Store.deref.
  destruct (h !! l) as [[]|]; intros [= ->]; done.
Qed.

Lemma recordsAt_Some h photos R :
  Store.recordsAt h photos = Some R
  ↔ ∃ ls, h !! photos = Some (Store.OPhotos ls)
          ∧ Forall2 (λ l photo, Store.photoAt h l = Some photo) ls R.
Proof.
  unfold Store.recordsAt. split.
  - destruct (h !! photos) as [[]|]; try done. intros HR.
    eexists. split; [done|]. by apply mapM_Some.
  - intros (ls & -> & HR). by apply mapM_Some.
Qed.

Lemma photoAt_app h ext l photo :
  Store.photoAt h l = Some photo → Store.photoAt (h ++ ext) l = Some photo.
Proof.
  unfold Store.photoAt. destruct (h !! l) as [o|] eqn:Hl; [|done].
  by rewrite (lookup_app_l_Some _ _ _ _ Hl).
Qed.

(** The records of an array are read the same after the store has grown. *)
Lemma recordsAt_app h ext photos R :
  Store.recordsAt h photos = Some R → Store.recordsAt (h ++ ext) photos = Some R.
Proof.
  rewrite !recordsAt_Some. intros (ls & Hls & HR). exists ls. split.
  - by apply lookup_app_l_Some.
  - eapply Forall2_impl; [exact HR|]. intros l photo. apply photoAt_app.
Qed.

Lemma mapS_photos {B} (g : PhotoMetadata Payload → B) h ls R :
  Forall2 (λ l photo, Store.photoAt h l = Some photo) ls R →
  Store.mapS (λ l, Store.bindS (Store.derefPhoto l) (λ photo, Store.retS (g photo))) ls h
  = (h, Normal (g <$> R)).
Proof.
  induction 1 as [|l photo ls R Hl _ IH]; [done|]. simpl.
  rewrite (bindS_run _ _ h h (g photo)).
  - by rewrite (bindS_run _ _ h h (g <$> R)).
  - by rewrite (bindS_run _ _ h h photo) by by apply derefPhoto_run.
Qed.

Lemma filterS_photos (f : PhotoMetadata Payload → completion bool) h ls R :
  Forall2 (λ l photo, Store.photoAt h l = Some photo) ls R →
  ∃ r, Store.filterS (λ l, Store.bindS (Store.derefPhoto l)
                             (λ photo, Store.lift (f photo))) ls h = (h, r)
       ∧ match filterM f R with
         | Normal out =>
             ∃ kept, r = Normal kept
                     ∧ Forall2 (λ l photo, Store.photoAt h l = Some photo) kept out
         | TypeError => r = TypeError
         end.
Proof.
  induction 1 as [|l photo ls R Hl _ (r & Hrun & Hr)]; simpl.
  - exists (Normal []). split; [done|]. exists []. by split.
  - assert (Store.bindS (Store.derefPhoto l) (λ photo, Store.lift (f photo)) h
            = (h, f photo)) as Hhead.
    { by rewrite (bindS_run _ _ h h photo) by by apply derefPhoto_run. }
    destruct (f photo) as [b|]; simpl.
    + rewrite (bindS_run _ _ _ _ _ Hhead).
      destruct (filterM f R) as [out|]; simpl.
      * destruct Hr as (kept & -> & Hkept).
        rewrite (bindS_run _ _ _ _ _ Hrun).
        eexists. split; [done|]. eexists. split; [done|].
        destruct b; [by constructor|done].
      * subst r. rewrite (bindS_throws _ _ _ _ Hrun). by eexists.
    + rewrite (bindS_throws _ _ _ _ Hhead). by eexists.
Qed.

End StoreRefinement.

Section StoreResults.
Context {Payload : Type}.
Local Abbreviation M := (Store.M Payload).
Local Abbreviation heap := (Store.heap Payload).
Local Abbreviation object := (Store.object Payload).
Implicit Types (h ext : heap) (l photos : Store.loc) (o : object)
               (ls : list Store.loc) (vs : list value)
               (R : list (PhotoMetadata Payload)).

Lemma fresh_alloc o : Store.fresh (Store.alloc o).
Proof. intros h. simpl. rewrite length_app. simpl. lia. Qed.

Lemma fresh_throw : Store.fresh (@Store.throw Payload Store.loc).
Proof. by intros h. Qed.

Lemma fresh_bindS {A} (m : M A) (k : A → M Store.loc) :
  Store.extends m → (∀ a, Store.fresh (k a)) → Store.fresh (Store.bindS m k).
Proof.
  intros Hm Hk h. unfold Store.bindS.
  destruct (Hm h) as [ext Hext]. destruct (m h) as [h1 [a|]]; [|done].
  simpl in Hext. subst h1. specialize (Hk a (h ++ ext)).
  destruct (k a (h ++ ext)) as [h2 [l|]]; [|done].
  rewrite length_app in Hk. lia.
Qed.

Lemma fresh_consAll l : Store.fresh (Store.consAll (Payload:=Payload) l).
Proof.
  apply fresh_bindS; [apply extends_derefValues|]. intros vs. apply fresh_alloc.
Qed.

Lemma fresh_allTags photos : Store.fresh (Store.allTags (Payload:=Payload) photos).
Proof.
  unfold Store.allTags.
  apply fresh_bindS.
  { unfold Store.uniqueTags, Store.flatMapTags, Store.newSet, Store.arrayFrom.
    extends_steps. }
  intros unique. apply fresh_bindS.
  { unfold Store.arrayFrom. extends_steps. }
  intros copy. apply fresh_bindS; [|apply fresh_consAll].
  unfold Store.filterBoolean. extends_steps.
Qed.

Lemma fresh_filteredPhotos photos T :
  T ≠ "All" → Store.fresh (Store.filteredPhotos (Payload:=Payload) photos T).
Proof.
  intros HT. unfold Store.filteredPhotos. rewrite decide_False by done.
  apply fresh_bindS; [apply extends_derefPhotos|]. intros ls.
  apply fresh_bindS; [|intros kept; apply fresh_alloc].
  apply extends_filterS. intros l.
  apply extends_bindS; [apply extends_derefPhoto|]. intros photo.
  apply extends_lift.
Qed.

Lemma concat_fmap_bind {A B} (g : A → list B) (xs : list A) :
  concat (g <$> xs) = xs ≫= g.
Proof.
  induction xs as [|x xs IH]; [done|].
  rewrite fmap_cons, bind_cons, <- IH. reflexivity.
Qed.

Lemma flatMapTags_run h photos R :
  Store.recordsAt h photos = Some R →
  Store.flatMapTags photos h
  = (h ++ [Store.OValues (flatMapTags R)], Normal (length h)).
Proof.
  intros (ls & Hls & HR)%recordsAt_Some. unfold Store.flatMapTags.
  rewrite (bindS_run _ _ h h ls) by by apply derefPhotos_run.
  erewrite bindS_run by by apply mapS_photos.
  unfold Store.alloc, flatMapTags. by rewrite concat_fmap_bind.
Qed.

Lemma newSet_run h l vs :
  h !! l = Some (Store.OValues vs) →
  Store.newSet l h = (h ++ [Store.OSet (arrayFromSet vs)], Normal (length h)).
Proof.
  intros Hl. unfold Store.newSet.
  by rewrite (bindS_run _ _ h h vs) by by apply derefValues_run.
Qed.

Lemma arrayFrom_run h l vs :
  h !! l = Some (Store.OSet vs) ∨ h !! l = Some (Store.OValues vs) →
  Store.arrayFrom l h = (h ++ [Store.OValues vs], Normal (length h)).
Proof.
  intros Hl. unfold Store.arrayFrom, Store.bindS, Store.deref.
  by destruct Hl as [-> | ->].
Qed.

Lemma filterBoolean_run h l vs :
  h !! l = Some (Store.OValues vs) →
  Store.filterBoolean l h
  = (h ++ [Store.OValues (filter (λ v, Boolean v = true) vs)], Normal (length h)).
Proof.
  intros Hl. unfold Store.filterBoolean.
  by rewrite (bindS_run _ _ h h vs) by by apply derefValues_run.
Qed.

Lemma consAll_run h l vs :
  h !! l = Some (Store.OValues vs) →
  Store.consAll l h = (h ++ [Store.OValues (VStr "All" :: vs)], Normal (length h)).
Proof.
  intros Hl. unfold Store.consAll.
  by rewrite (bindS_run _ _ h h vs) by by apply derefValues_run.
Qed.

Lemma valuesAt_snoc h vs :
  Store.valuesAt (h ++ [Store.OValues vs]) (length h) = Some vs.
Proof. unfold Store.valuesAt, Store.heap in *. by rewrite lookup_snoc. Qed.

(** The array that [allTags] allocates holds the tag universe of the
    records. *)
Lemma allTags_run h photos R :
  Store.recordsAt h photos = Some R →
  ∃ ext l, Store.allTags photos h = (h ++ ext, Normal l)
           ∧ Store.valuesAt (h ++ ext) l = Some (allTags R).
Proof.
  intros HR. unfold Store.allTags, Store.uniqueTags.
  erewrite bindS_run; cycle 1.
  { erewrite bindS_run by by apply flatMapTags_run.
    erewrite bindS_run by (apply newSet_run, lookup_snoc).
    apply arrayFrom_run. left. apply lookup_snoc. }
  erewrite bindS_run by (apply arrayFrom_run; right; apply lookup_snoc).
  erewrite bindS_run by (apply filterBoolean_run, lookup_snoc).
  rewrite (consAll_run _ _ _ (lookup_snoc _ _)).
  rewrite <- !app_assoc. do 2 eexists. split; [done|].
  rewrite !app_assoc. apply valuesAt_snoc.
Qed.

(** The selection in the store is the selection of the records: it
    throws when that throws, and otherwise returns an array of the
    selected records. *)
Lemma filteredPhotos_run h photos T R :
  Store.recordsAt h photos = Some R →
  ∃ ext r, Store.filteredPhotos photos T h = (h ++ ext, r)
           ∧ match filteredPhotos R T with
             | Normal out =>
                 ∃ l, r = Normal l ∧ Store.recordsAt (h ++ ext) l = Some out
             | TypeError => r = TypeError
             end.
Proof.
  intros HR. unfold Store.filteredPhotos, filteredPhotos. case_decide.
  - exists [], (Normal photos). rewrite app_nil_r. split; [done|]. by exists photos.
  - apply recordsAt_Some in HR as (ls & Hls & HR).
    rewrite (bindS_run _ _ h h ls) by by apply derefPhotos_run.
    destruct (filterS_photos (tagsInclude T) h ls R HR) as (r & Hrun & Hr).
    destruct (filterM (tagsInclude T) R) as [out|].
    + destruct Hr as (kept & -> & Hkept).
      rewrite (bindS_run _ _ _ _ _ Hrun). unfold Store.alloc.
      do 2 eexists. split; [done|]. exists (length h). split; [done|].
      apply recordsAt_Some. exists kept. split; [apply lookup_snoc|].
      eapply Forall2_impl; [exact Hkept|]. intros l photo. apply photoAt_app.
    + subst r. rewrite (bindS_throws _ _ _ _ Hrun).
      exists [], TypeError. by rewrite app_nil_r.
Qed.

End StoreResults.

Section StoreClaims.
Context {Payload : Type}.
Local Abbreviation heap := (Store.heap Payload).
Local Abbreviation object := (Store.object Payload).
Implicit Types (h ext : heap) (l photos : Store.loc) (o : object)
               (R : list (PhotoMetadata Payload)).

(** C9. Computing the tag universe and the selection writes to no object
    that exists: the store after a rendering is the store before it with
    new objects behind, so every object, the array [photos] and each
    record with its payload and tags among them, is where it was and as
    it was. Selecting "All" hands back the array [photos] itself and
    allocates nothing; any other selection and the tag universe, when
    they return, are objects that were not in the store before. *)
Theorem render_leaves_store h photos T :
  ∃ ext, (Store.render photos T h).1 = h ++ ext
    ∧ (∀ l o, h !! l = Some o → (h ++ ext) !! l = Some o)
    ∧ (∀ R, Store.recordsAt h photos = Some R →
            Store.recordsAt (h ++ ext) photos = Some R)
    ∧ (∃ ext1, (Store.allTags photos h).1 = h ++ ext1)
    ∧ (∃ ext2, (Store.filteredPhotos photos T h).1 = h ++ ext2)
    ∧ Store.filteredPhotos photos "All" h = (h, Normal photos)
    ∧ (T ≠ "All" →
       ∀ l, (Store.filteredPhotos photos T h).2 = Normal l → (length h ≤ l)%nat)
    ∧ (∀ l, (Store.allTags photos h).2 = Normal l → (length h ≤ l)%nat).
Proof.
  destruct (extends_render photos T h) as [ext Hext]. exists ext.
  split; [done|].
  split; [intros l o; apply lookup_app_l_Some|].
  split; [intros R; apply recordsAt_app|].
  split; [apply extends_allTags|].
  split; [apply extends_filteredPhotos|].
  split; [reflexivity|]. split.
  - intros HT l Hl. pose proof (fresh_filteredPhotos photos T HT h) as Hfresh.
    destruct (Store.filteredPhotos photos T h) as [h' r]. simpl in Hl. subst r. lia.
  - intros l Hl. pose proof (fresh_allTags photos h) as Hfresh.
    destruct (Store.allTags photos h) as [h' r]. simpl in Hl. subst r. lia.
Qed.

End StoreClaims.

(** ** The claims at the worked examples *)

Lemma filteredPhotos_subsequence_example :
  ∃ out, filteredPhotos exampleGallery "b" = Normal out
       ∧ out = filter (HasTag "b") exampleGallery
       ∧ Forall (HasTag "b") out
       ∧ (∀ photo, photo ∈ exampleGallery → HasTag "b" photo → photo ∈ out)
       ∧ sublist out exampleGallery.
Proof.
  apply (filteredPhotos_subsequence exampleGallery "b").
  - discriminate.
  - repeat (constructor; [by eexists|]). constructor.
Defined.

Lemma allTags_universe_example :
  sentinelFree exampleGallery ∧ NoDup (allTags exampleGallery).
Proof.
  assert (sentinelFree exampleGallery) as Hfree.
  { unfold sentinelFree. rewrite list_elem_of_In. vm_compute.
    intros [Ha|[Hb|[Hc|[]]]]; discriminate. }
  split; [exact Hfree|].
  by apply (allTags_universe exampleGallery).
Defined.

Lemma allTags_entry_selects_example :
  ∃ out, filteredPhotos exampleGallery "a" = Normal out ∧ out ≠ [].
Proof.
  apply (allTags_entry_selects exampleGallery "a").
  - repeat (constructor; [by eexists|]). constructor.
  - discriminate.
  - rewrite list_elem_of_In. vm_compute. tauto.
Defined.

Lemma render_leaves_store_example :
  ∃ ext, (Store.render 3 "b" exampleStore).1 = exampleStore ++ ext
    ∧ (∀ l o, exampleStore !! l = Some o → (exampleStore ++ ext) !! l = Some o)
    ∧ (∀ R, Store.recordsAt exampleStore 3 = Some R →
            Store.recordsAt (exampleStore ++ ext) 3 = Some R)
    ∧ (∃ ext1, (Store.allTags 3 exampleStore).1 = exampleStore ++ ext1)
    ∧ (∃ ext2, (Store.filteredPhotos 3 "b" exampleStore).1 = exampleStore ++ ext2)
    ∧ Store.filteredPhotos 3 "All" exampleStore = (exampleStore, Normal 3)
    ∧ ("b" ≠ "All" →
       ∀ l, (Store.filteredPhotos 3 "b" exampleStore).2 = Normal l →
            (length exampleStore ≤ l)%nat)
    ∧ (∀ l, (Store.allTags 3 exampleStore).2 = Normal l →
            (length exampleStore ≤ l)%nat).
Proof. exact (render_leaves_store exampleStore 3 "b"). Defined.

Example render_exampleStore :
  Store.recordsAt exampleStore 3 = Some exampleGallery
  ∧ Store.render 3 "b" exampleStore
    = (exampleStore
         ++ [ Store.OValues [VStr "a"; VStr "b"; VStr "b"];
              Store.OSet [VStr "a"; VStr "b"];
              Store.OValues [VStr "a"; VStr "b"];
              Store.OValues [VStr "a"; VStr "b"];
              Store.OValues [VStr "a"; VStr "b"];
              Store.OValues [VStr "All"; VStr "a"; VStr "b"];
              Store.OPhotos [0; 1] ],
       Normal (9, 10)).
Proof. by vm_compute. Qed.

Lemma filterLastNMonths_cutoff_example :
  ∃ cutoffMonth cutoffYear,
    adjustYear (@getMonth utcHost t_2024_01_10 - 14) (@getFullYear utcHost t_2024_01_10)
      = (cutoffMonth, cutoffYear)
    ∧ cutoffMonth = 10%Z ∧ cutoffYear = 2022%Z
    ∧ @cutoffDate utcHost t_2024_01_10 14 = parseDateOnly "2022-11-10".
Proof.
  destruct (@filterLastNMonths_cutoff utcHost t_2024_01_10 14 [july14; july16])
    as (cutoffMonth & cutoffYear & Hadj & _ & _ & _ & _ & _ & _ & Hexample); [lia|].
  destruct Hexample as (_ & _ & Hy & Hm & Hcut & Hparse);
    [reflexivity|(vm_compute; reflexivity)..|].
  exists cutoffMonth, cutoffYear.
  split; [exact Hadj|]. split; [exact Hm|]. split; [exact Hy|].
  rewrite Hcut. reflexivity.
Defined.

Lemma cutoffDate_0_midnight_example :
  @cutoffDate utcHost t_2024_06_15_noon 0 = Some t_2024_06_15.
Proof.
  destruct (@cutoffDate_0_midnight utcHost t_2024_06_15_noon [july16]) as (Hcut & _).
  - replace (@getFullYear utcHost t_2024_06_15_noon) with 2024%Z
      by (vm_compute; reflexivity).
    lia.
  - rewrite Hcut. reflexivity.
Defined.

Lemma filterLastNMonths_invalid_date_example :
  (undatedDay ∉ @filterLastNMonths utcHost t_2024_06_15_noon
                  [july16; undatedDay] None)
  ∧ @filterLastNMonths utcHost t_2024_06_15_noon [july16; undatedDay] None
    = @filterLastNMonths utcHost t_2024_06_15_noon [july16] None.
Proof.
  destruct (@filterLastNMonths_invalid_date utcHost t_2024_06_15_noon None undatedDay)
    as [Hout Hskip].
  - left. reflexivity.
  - split; [apply Hout|]. exact (Hskip [july16] []).
Defined.

(** * Further properties of the gallery *)

Section TagUniverseFacts.
Context {Payload : Type}.
Implicit Types (photo : PhotoMetadata Payload)
               (photos a b : list (PhotoMetadata Payload)) (T : string) (v : value).

Lemma firstSeen_app (l1 l2 : list value) :
  firstSeen (l1 ++ l2) = firstSeen l1 ++ filter (λ v, v ∉ firstSeen l1) (firstSeen l2).
Proof.
  rewrite <- !arrayFromSet_firstSeen. unfold arrayFromSet.
  rewrite foldl_app, foldl_setAdd. by rewrite <- !arrayFromSet_firstSeen.
Qed.

Lemma truthyTagValues_app a b :
  truthyTagValues (a ++ b) = truthyTagValues a ++ truthyTagValues b.
Proof. unfold truthyTagValues, allTagValues. by rewrite bind_app, filter_app. Qed.

Lemma truthyTagValues_cons photo b :
  truthyTagValues (photo :: b)
  = filter (λ v, Boolean v = true) (tagList photo) ++ truthyTagValues b.
Proof. unfold truthyTagValues, allTagValues. by rewrite bind_cons, filter_app. Qed.

(** X8. Photos added at the end of the collection leave the tags already
    offered where they are: the universe of the shorter collection is a
    prefix of the universe of the longer one. *)
Theorem allTags_prefix a b : allTags a `prefix_of` allTags (a ++ b).
Proof.
  rewrite !allTags_firstSeen, truthyTagValues_app, firstSeen_app.
  apply prefix_cons. by eexists.
Qed.

(** X9. A record that brings no truthy tag value (no [tags] property, an
    empty array, only empty strings or nulls) can be put in or taken out
    anywhere without changing the tag universe. *)
Theorem allTags_skips_tagless a photo b :
  (∀ v, v ∈ tagList photo → Boolean v = false) →
  allTags (a ++ photo :: b) = allTags (a ++ b).
Proof.
  intros Hfalsy. rewrite !allTags_firstSeen, !truthyTagValues_app, truthyTagValues_cons.
  assert (filter (λ v, Boolean v = true) (tagList photo) = []) as ->; [|done].
  induction (tagList photo) as [|v l IH]; [done|].
  rewrite filter_cons_False.
  - apply IH. intros w Hw. apply Hfalsy. by right.
  - rewrite (Hfalsy v) by left. done.
Qed.

Lemma filter_HasTag_nil photos T :
  filter (HasTag T) photos = [] ↔ ∀ photo, photo ∈ photos → ¬ HasTag T photo.
Proof.
  split.
  - intros Hnil photo Hin Htag. by apply (filter_nil_not_elem_of _ _ photo Hnil Htag).
  - intros Hnone. induction photos as [|photo photos IH]; [done|].
    rewrite filter_cons_False by (apply Hnone; left).
    apply IH. intros p Hp. apply Hnone. by right.
Qed.

(** X6. A tag that is not offered selects nothing, and a tag that selects
    nothing is not offered: for records that all carry a [tags] array and
    a tag other than "All" and the empty string, the selection is empty
    exactly when the tag is not in [allTags]. The empty string is never
    offered. *)
Theorem unknown_tag_selects_nothing photos T :
  Forall tagged photos → T ≠ "All" → T ≠ "" →
  (VStr T ∉ allTags photos ↔ filteredPhotos photos T = Normal [])
  ∧ VStr "" ∉ allTags photos.
Proof.
  intros Hall HT Hne.
  assert (∀ s, VStr s ∈ allTags photos
               ↔ s = "All" ∨ (s ≠ "" ∧ ∃ photo, photo ∈ photos ∧ HasTag s photo))
    as Hoffered.
  { intros s. rewrite allTags_firstSeen, elem_of_cons.
    pose proof (elem_of_allTags_tail photos (VStr s)) as Htail.
    rewrite allTags_firstSeen in Htail. simpl in Htail. rewrite Htail.
    assert (VStr s = VStr "All" ↔ s = "All") as ->.
    { split; [by intros [= ->]|by intros ->]. }
    assert (Boolean (VStr s) = true ↔ s ≠ "") as ->.
    { simpl. case_decide; split; done. }
    unfold HasTag. tauto. }
  split.
  - rewrite filteredPhotos_tagged by done. rewrite Hoffered.
    split.
    + intros Hnot. f_equal. apply filter_HasTag_nil. intros photo Hin Htag.
      apply Hnot. right. split; [done|]. by exists photo.
    + intros [= Hnil] [?|[_ (photo & Hin & Htag)]]; [done|].
      by apply (proj1 (filter_HasTag_nil photos T) Hnil photo).
  - rewrite Hoffered. intros [?|[? _]]; done.
Qed.

End TagUniverseFacts.

Section ComponentFacts.
Context {Payload : Type}.
Implicit Types (photo : PhotoMetadata Payload)
               (records : list (PhotoMetadata Payload))
               (s : Component.state Payload) (r : Component.fetchOutcome Payload)
               (searchParams : option URLSearchParams.t)
               (params pre post : URLSearchParams.t) (console : list string).

Lemma get_None params name :
  URLSearchParams.get params name = None ↔ name ∉ params.*1.
Proof.
  induction params as [|[k v] params IH]; simpl.
  - split; [intros _; apply not_elem_of_nil|done].
  - rewrite not_elem_of_cons. case_decide as Hk; [|rewrite IH].
    + subst k. split; [done|]. by intros [? _].
    + split; [|tauto]. intros ?. split; [congruence|done].
Qed.

Lemma get_first pre name v post :
  name ∉ pre.*1 → URLSearchParams.get (pre ++ (name, v) :: post) name = Some v.
Proof.
  induction pre as [|[k w] pre IH]; simpl.
  - intros _. by rewrite decide_True.
  - rewrite not_elem_of_cons. intros [Hk Hpre]. rewrite decide_False by congruence.
    by apply IH.
Qed.

Lemma selectedTag_first_pair_aux params :
  "tag" ∉ params.*1 → Component.selectedTag (Some params) = "All".
Proof.
  intros Hno. unfold Component.selectedTag.
  by rewrite (proj2 (get_None params "tag") Hno).
Qed.

(** X5. The selected tag is the value of the first [tag] pair of the query
    string, whatever follows it and even when that value is empty; it is
    "All" when there is no query string or no [tag] pair in it. *)
Theorem selectedTag_first_pair :
  Component.selectedTag None = "All"
  ∧ (∀ params, "tag" ∉ params.*1 → Component.selectedTag (Some params) = "All")
  ∧ (∀ pre v post, "tag" ∉ pre.*1 →
       Component.selectedTag (Some (pre ++ ("tag", v) :: post)) = v).
Proof.
  split; [done|]. split.
  - apply selectedTag_first_pair_aux.
  - intros pre v post Hno. unfold Component.selectedTag. by rewrite get_first.
Qed.

Lemma filteredPhotos_TypeError records T :
  filteredPhotos records T = TypeError
  ↔ T ≠ "All" ∧ ∃ photo, photo ∈ records ∧ tags photo = None.
Proof.
  split.
  - intros Hthrow. destruct (decide (T = "All")) as [->|HT]; [done|].
    split; [done|].
    destruct (decide (Forall tagged records)) as [Hall|Hnot].
    + by rewrite filteredPhotos_tagged in Hthrow.
    + apply not_Forall_Exists, Exists_exists in Hnot as (photo & Hin & Hno);
        [|intros x; unfold tagged; apply _].
      exists photo. split; [done|]. simpl in Hno. unfold tagged in Hno.
      destruct (tags photo); [|done]. destruct Hno. by eexists.
  - intros [HT (photo & Hin & Hno)]. by apply (filteredPhotos_untagged _ _ photo).
Qed.

(** X2. The component throws while rendering in two situations only: the
    state holds a value that is not an array, or a tag other than "All" is
    selected and some record has no [tags] property. This is so whether
    or not the photos are still loading. *)
Theorem GalleryClient_throws_iff header s searchParams :
  Component.GalleryClient header s searchParams = TypeError
  ↔ Component.photos s = Component.JOther
    ∨ ∃ records photo,
        Component.photos s = Component.JArray records
        ∧ Component.selectedTag searchParams ≠ "All"
        ∧ photo ∈ records ∧ tags photo = None.
Proof.
  unfold Component.GalleryClient. destruct (Component.photos s) as [records|].
  - assert (∀ c : completion (list (PhotoMetadata Payload)),
              bind c (λ shown,
                if Component.loading s then Normal Component.LoadingView
                else Normal (Component.GalleryView header
                               (Component.selectedTag searchParams)
                               (allTags records) shown)) = TypeError
              ↔ c = TypeError) as Hbind.
    { intros [out|]; simpl; [|done]. by destruct (Component.loading s). }
    rewrite Hbind, filteredPhotos_TypeError. split.
    + intros [HT (photo & Hin & Hno)]. right. by exists records, photo.
    + intros [?|(records' & photo & [= <-] & HT & Hin & Hno)]; [done|].
      split; [done|]. by exists photo.
  - split; [by left|done].
Qed.

(** X1. However the request turns out, [fetchPhotos] ends with [loading]
    switched off. When the request fails (it is rejected, the status is
    not ok, or the body cannot be read) the photos stay what they were and
    one line goes to the console; when it succeeds the photos are the
    parsed body, whatever it is, and the console is untouched. *)
Theorem fetchPhotos_settles r s console :
  Component.loading (Component.fetchPhotos r s console).1 = false
  ∧ (Component.failed r →
     Component.photos (Component.fetchPhotos r s console).1 = Component.photos s
     ∧ ∃ line, (Component.fetchPhotos r s console).2 = console ++ [line])
  ∧ (∀ data, r = Component.FetchResponse true (Component.BodyJSON data) →
     Component.photos (Component.fetchPhotos r s console).1 = data
     ∧ (Component.fetchPhotos r s console).2 = console).
Proof.
  split; [|split].
  - by destruct r as [error|[|] [data|error]].
  - intros Hfailed. destruct r as [error|[|] [data|error]]; simpl in *;
      try (split; [done|by eexists]).
    by destruct Hfailed.
  - by intros data ->.
Qed.

(** X3. After a failed first load the page is the empty gallery: the
    header, the selected tag of the query string, "All" as the only tag
    offered and no photo. It is not the placeholder and nothing is
    thrown, whatever the query string selects. *)
Theorem failed_fetch_shows_empty_gallery header r searchParams console :
  Component.failed r →
  Component.GalleryClient header
    (Component.fetchPhotos r Component.initialState console).1 searchParams
  = Normal (Component.GalleryView header (Component.selectedTag searchParams)
              [VStr "All"] []).
Proof.
  intros Hfailed.
  assert (Component.fetchPhotos r Component.initialState console
          = ({| Component.photos := Component.JArray []; Component.loading := false |},
             (Component.fetchPhotos r Component.initialState console).2)) as ->.
  { destruct r as [error|[|] [data|error]]; simpl in *; try done.
    by destruct Hfailed. }
  unfold Component.GalleryClient, filteredPhotos. simpl. by case_decide.
Qed.

(** X4. Without a [tag] pair in the query string the loaded page shows
    every photo of the state, in order, also when some of them have no
    [tags] property. *)
Theorem no_tag_parameter_shows_all header s searchParams records :
  searchParams = None
  ∨ (∃ params, searchParams = Some params ∧ "tag" ∉ params.*1) →
  Component.photos s = Component.JArray records →
  Component.loading s = false →
  Component.GalleryClient header s searchParams
  = Normal (Component.GalleryView header "All" (allTags records) records).
Proof.
  intros Hsp Hphotos Hloaded.
  assert (Component.selectedTag searchParams = "All") as Hsel.
  { destruct Hsp as [->|(params & -> & Hno)]; [done|].
    by apply selectedTag_first_pair_aux. }
  unfold Component.GalleryClient. rewrite Hphotos, Hloaded, Hsel. reflexivity.
Qed.

End ComponentFacts.


(** * Further properties of the month window *)

(** ** Counting in months *)

Section MonthCount.
Open Scope Z_scope.
Implicit Types (y m d n : Z).

Lemma MakeDay_months y m d : MakeDay y m d = MakeDay 0 (12 * y + m) d.
Proof.
  unfold MakeDay.
  replace (0 + (12 * y + m) / 12) with (y + m / 12) by (Z.div_mod_to_equations; lia).
  replace ((12 * y + m) mod 12) with (m mod 12) by (Z.div_mod_to_equations; lia).
  done.
Qed.

Lemma MakeDay_date y m d : MakeDay y m d = MakeDay y m 1 + d - 1.
Proof. unfold MakeDay. lia. Qed.

Lemma DaysInMonth_range y m : 0 ≤ m ≤ 11 → 28 ≤ DaysInMonth y m ≤ 31.
Proof.
  intros Hm. unfold DaysInMonth.
  assert (m = 0 ∨ m = 1 ∨ m = 2 ∨ m = 3 ∨ m = 4 ∨ m = 5 ∨ m = 6 ∨ m = 7
          ∨ m = 8 ∨ m = 9 ∨ m = 10 ∨ m = 11) as Hcases by lia.
  case_decide; repeat (destruct Hcases as [->|Hcases]); try subst m; simpl; lia.
Qed.

(** From the first of a month to the first of the next is the length of
    the month. *)
Lemma MakeDay_next_month n :
  MakeDay 0 (n + 1) 1 = MakeDay 0 n 1 + DaysInMonth (n / 12) (n mod 12).
Proof.
  unfold MakeDay, DaysInMonth. rewrite !Z.add_0_l.
  assert (0 ≤ n mod 12 < 12) as Hm by (apply Z.mod_pos_bound; lia).
  destruct (decide (n mod 12 = 11)) as [H11|H11].
  - replace ((n + 1) / 12) with (n / 12 + 1) by (Z.div_mod_to_equations; lia).
    replace ((n + 1) mod 12) with 0 by (Z.div_mod_to_equations; lia).
    rewrite H11, DayFromYear_succ. simpl.
    destruct (DaysInYear_cases (n / 12)) as [Hy|Hy]; rewrite Hy;
      repeat case_decide; lia.
  - replace ((n + 1) / 12) with (n / 12) by (Z.div_mod_to_equations; lia).
    replace ((n + 1) mod 12) with (n mod 12 + 1) by (Z.div_mod_to_equations; lia).
    lia.
Qed.

Lemma MakeDay_le n k d : 0 ≤ k → MakeDay 0 n d ≤ MakeDay 0 (n + k) d.
Proof.
  revert k. apply (natlike_ind (λ k, MakeDay 0 n d ≤ MakeDay 0 (n + k) d)).
  - replace (n + 0) with n by lia. lia.
  - intros k Hk IH. replace (n + Z.succ k) with (n + k + 1) by lia.
    rewrite (MakeDay_date 0 (n + k + 1)), MakeDay_next_month.
    rewrite (MakeDay_date 0 (n + k)) in IH.
    assert (0 ≤ (n + k) mod 12 < 12) as Hm by (apply Z.mod_pos_bound; lia).
    pose proof (DaysInMonth_range ((n + k) / 12) ((n + k) mod 12)). lia.
Qed.

Lemma MakeDay_mono y m y' m' d :
  12 * y + m ≤ 12 * y' + m' → MakeDay y m d ≤ MakeDay y' m' d.
Proof.
  intros Hle. rewrite (MakeDay_months y), (MakeDay_months y').
  replace (12 * y' + m') with (12 * y + m + (12 * y' + m' - (12 * y + m))) by lia.
  apply MakeDay_le. lia.
Qed.

(** A day that the month has is found again by the accessors. *)
Lemma MakeDay_valid y m d :
  0 ≤ m ≤ 11 → 1 ≤ d ≤ DaysInMonth y m →
  let t := MakeDate (MakeDay y m d) 0 in
  YearFromTime t = y ∧ MonthFromTime t = m ∧ DateFromTime t = d.
Proof.
  intros Hm Hd t.
  assert (Day t = MakeDay y m d) as Hday by apply Day_MakeDate.
  assert (MakeDay y m d = DayFromYear y
            + monthStart (if decide (DaysInYear y = 366) then 1 else 0) m + d - 1) as Hmk.
  { unfold MakeDay. rewrite Z.div_small, Z.mod_small, Z.add_0_r by lia. lia. }
  assert (m = 0 ∨ m = 1 ∨ m = 2 ∨ m = 3 ∨ m = 4 ∨ m = 5 ∨ m = 6 ∨ m = 7
          ∨ m = 8 ∨ m = 9 ∨ m = 10 ∨ m = 11) as Hcases by lia.
  unfold DaysInMonth in Hd.
  assert (YearFromTime t = y) as Hyear.
  { apply YearFromTime_unique. rewrite Hday, Hmk, DayFromYear_succ.
    destruct (DaysInYear_cases y) as [Hy|Hy]; rewrite Hy in *; case_decide; try lia;
      repeat (destruct Hcases as [->|Hcases]); try subst m; simpl in *; lia. }
  split; [done|].
  assert (MonthFromTime t = m) as Hmonth.
  { unfold MonthFromTime, DayWithinYear, InLeapYear. rewrite Hyear, Hday, Hmk.
    case_decide;
      repeat (destruct Hcases as [->|Hcases]); try subst m; simpl in *;
      repeat case_decide; lia. }
  split; [done|].
  unfold DateFromTime, DayWithinYear. rewrite Hmonth.
  unfold InLeapYear. rewrite Hyear, Hday, Hmk. lia.
Qed.

(** A day past the end of the month is that many days into the next. *)
Lemma MakeDay_overflow y m d :
  0 ≤ m ≤ 10 → MakeDay y m d = MakeDay y (m + 1) (d - DaysInMonth y m).
Proof.
  intros Hm. unfold MakeDay, DaysInMonth.
  rewrite !Z.div_small, !Z.mod_small, Z.add_0_r by lia. lia.
Qed.

End MonthCount.

(** ** The cutoff in a zone with a constant offset *)

Section ConstantZone.
Open Scope Z_scope.
Context `{Host} (tza : Z) (Hzone : constantOffset tza).
Implicit Types (today months c : Z) (day : ContributionDay)
               (contributions : list ContributionDay).

(** What the loop hands to the constructor. *)
Lemma cutoffDate_pair today months :
  0 ≤ months →
  ∃ cutoffMonth cutoffYear,
    adjustYear (getMonth today - months) (getFullYear today) = (cutoffMonth, cutoffYear)
    ∧ 0 ≤ cutoffMonth ≤ 11
    ∧ 12 * cutoffYear + cutoffMonth = 12 * getFullYear today + getMonth today - months
    ∧ cutoffDate today months = newDateYMD cutoffYear cutoffMonth (getDate today).
Proof.
  intros Hmonths. pose proof (getMonth_range today) as Hm.
  destruct (adjustYear (getMonth today - months) (getFullYear today))
    as [cutoffMonth cutoffYear] eqn:Hadj.
  exists cutoffMonth, cutoffYear. split; [done|].
  split; [|split]; [| |unfold cutoffDate; by rewrite Hadj].
  all: rewrite adjustYear_closed in Hadj; case_decide; injection Hadj as <- <-;
    Z.div_mod_to_equations; lia.
Qed.

Lemma LocalTime_constant t : LocalTime t = t + tza.
Proof. unfold LocalTime. by rewrite Hzone. Qed.

Lemma UTC_constant t : UTC t = t - tza.
Proof. unfold UTC. by rewrite Hzone. Qed.

Lemma newDateYMD_Some year month date c :
  newDateYMD year month date = Some c →
  c = MakeDay (if decide (0 ≤ year ≤ 99) then 1900 + year else year) month date
      * msPerDay - tza.
Proof.
  unfold newDateYMD, TimeClip. rewrite UTC_constant. unfold MakeDate.
  case_decide; [|done]. intros [= <-]. lia.
Qed.

Lemma today_after_midnight today :
  MakeDay (getFullYear today) (getMonth today) (getDate today) * msPerDay - tza ≤ today.
Proof.
  unfold getFullYear, getMonth, getDate. rewrite MakeDay_fields, LocalTime_constant.
  unfold Day, msPerDay. Z.div_mod_to_equations. lia.
Qed.

(** X11. In a zone with a constant offset and with the clock in the year
    2000 or later, the cutoff of a window of [months] ≥ 0 is never after
    the clock: whatever the day of the month does, the window reaches
    back from now, not forward. *)
Theorem cutoff_not_after_today today months c :
  0 ≤ months → 2000 ≤ getFullYear today →
  cutoffDate today months = Some c → c ≤ today.
Proof.
  intros Hmonths Hyear Hcut.
  destruct (cutoffDate_pair today months Hmonths)
    as (cm & cy & _ & Hcm & Hsum & Hdate).
  rewrite Hdate in Hcut. apply newDateYMD_Some in Hcut. subst c.
  pose proof (today_after_midnight today) as Htoday.
  pose proof (getMonth_range today) as Hm.
  assert (MakeDay (if decide (0 ≤ cy ≤ 99) then 1900 + cy else cy) cm (getDate today)
          ≤ MakeDay (getFullYear today) (getMonth today) (getDate today)) as Hle.
  { apply MakeDay_mono. case_decide; lia. }
  unfold msPerDay in *. lia.
Qed.

Lemma sublist_filter_impl {A} (P Q : A → Prop)
    `{!∀ x, Decision (P x), !∀ x, Decision (Q x)} (l : list A) :
  (∀ x, P x → Q x) → sublist (filter P l) (filter Q l).
Proof.
  intros HPQ. induction l as [|x l IH]; [done|].
  rewrite !filter_cons. destruct (decide (P x)) as [HP|HP].
  - rewrite decide_True by auto. by apply sublist_skip.
  - destruct (decide (Q x)); [by apply sublist_cons|done].
Qed.

(** X12. In a zone with a constant offset a wider window keeps every day
    that a narrower one keeps, in the same order, as long as the wider
    cutoff is a valid date and does not reach back to the year 99 (a year
    from 0 to 99 would be read as 1900 to 1999). *)
Theorem wider_window_keeps_more today months1 months2 contributions :
  0 ≤ months1 ≤ months2 →
  months2 ≤ 12 * (getFullYear today - 100) →
  is_Some (cutoffDate today months2) →
  sublist (filterLastNMonths today contributions (Some months1))
          (filterLastNMonths today contributions (Some months2))
  ∧ ∀ day, day ∈ filterLastNMonths today contributions (Some months1) →
           day ∈ filterLastNMonths today contributions (Some months2).
Proof.
  intros Hmonths Hyear [c2 Hc2].
  assert (∀ x, ge x (cutoffDate today months1) = true
               → ge x (cutoffDate today months2) = true) as Himpl.
  { intros x. rewrite Hc2.
    destruct (cutoffDate today months1) as [c1|] eqn:Hc1; [|by destruct x].
    assert (c2 ≤ c1) as Hle.
    { destruct (cutoffDate_pair today months1) as (cm1 & cy1 & _ & Hcm1 & Hsum1 & Hd1);
        [lia|].
      destruct (cutoffDate_pair today months2) as (cm2 & cy2 & _ & Hcm2 & Hsum2 & Hd2);
        [lia|].
      pose proof (getMonth_range today) as Hm.
      rewrite Hd1 in Hc1. rewrite Hd2 in Hc2.
      apply newDateYMD_Some in Hc1, Hc2. subst c1 c2.
      rewrite !decide_False by lia.
      assert (MakeDay cy2 cm2 (getDate today) ≤ MakeDay cy1 cm1 (getDate today))
        by (apply MakeDay_mono; lia).
      unfold msPerDay. lia. }
    destruct x as [x|]; [|done]. simpl. rewrite !bool_decide_eq_true. lia. }
  split.
  - unfold filterLastNMonths. simpl. apply sublist_filter_impl.
    intros day. apply Himpl.
  - intros day. rewrite !elem_of_filterLastNMonths. simpl.
    intros [Hin Hge]. split; [done|]. by apply Himpl.
Qed.

Lemma cutoff_LocalTime year month date c :
  ¬ (0 ≤ year ≤ 99) → newDateYMD year month date = Some c →
  LocalTime c = MakeDate (MakeDay year month date) 0.
Proof.
  intros Hyear Hc. apply newDateYMD_Some in Hc. subst c.
  rewrite decide_False by done. rewrite LocalTime_constant. unfold MakeDate. lia.
Qed.

(** X13. When the month that the loop arrives at has the clock's day of
    the month, the cutoff read back through the accessors is that very
    day: the year and month left by the loop, the same day of the month,
    at 00:00:00.000 local time, [months] months before the clock's month
    (constant offset, cutoff year outside 0 to 99). *)
Theorem cutoff_same_day_of_month today months cutoffMonth cutoffYear c :
  0 ≤ months →
  adjustYear (getMonth today - months) (getFullYear today) = (cutoffMonth, cutoffYear) →
  ¬ (0 ≤ cutoffYear ≤ 99) →
  getDate today ≤ DaysInMonth cutoffYear cutoffMonth →
  cutoffDate today months = Some c →
  getFullYear c = cutoffYear ∧ getMonth c = cutoffMonth ∧ getDate c = getDate today
  ∧ TimeWithinDay (LocalTime c) = 0
  ∧ 12 * getFullYear c + getMonth c = 12 * getFullYear today + getMonth today - months.
Proof.
  intros Hmonths Hadj Hyear Hday Hc.
  destruct (cutoffDate_pair today months Hmonths)
    as (cm & cy & Hadj' & Hcm & Hsum & Hdate).
  rewrite Hadj in Hadj'. injection Hadj' as <- <-.
  rewrite Hdate in Hc. pose proof (cutoff_LocalTime _ _ _ _ Hyear Hc) as Hlocal.
  pose proof (getDate_range today) as Hd.
  destruct (MakeDay_valid cutoffYear cutoffMonth (getDate today)) as (Hy & Hm & Hdt);
    [done|lia|].
  assert (getFullYear c = cutoffYear) as -> by (unfold getFullYear; by rewrite Hlocal).
  assert (getMonth c = cutoffMonth) as -> by (unfold getMonth; by rewrite Hlocal).
  assert (getDate c = getDate today) as -> by (unfold getDate at 1; by rewrite Hlocal).
  repeat split; [|done].
  rewrite Hlocal. unfold TimeWithinDay, MakeDate. rewrite Z.add_0_r. by apply Z.mod_mul.
Qed.

(** X14. When that month is too short for the clock's day of the month,
    the cutoff is in the month after it, on day 1, 2 or 3: the days that
    the short month lacks are counted into the next one. December is
    never too short, so the year stays. *)
Theorem cutoff_rolls_into_next_month today months cutoffMonth cutoffYear c :
  0 ≤ months →
  adjustYear (getMonth today - months) (getFullYear today) = (cutoffMonth, cutoffYear) →
  ¬ (0 ≤ cutoffYear ≤ 99) →
  DaysInMonth cutoffYear cutoffMonth < getDate today →
  cutoffDate today months = Some c →
  cutoffMonth ≤ 10
  ∧ getFullYear c = cutoffYear ∧ getMonth c = cutoffMonth + 1
  ∧ getDate c = getDate today - DaysInMonth cutoffYear cutoffMonth
  ∧ 1 ≤ getDate c ≤ 3.
Proof.
  intros Hmonths Hadj Hyear Hday Hc.
  destruct (cutoffDate_pair today months Hmonths)
    as (cm & cy & Hadj' & Hcm & Hsum & Hdate).
  rewrite Hadj in Hadj'. injection Hadj' as <- <-.
  rewrite Hdate in Hc. pose proof (cutoff_LocalTime _ _ _ _ Hyear Hc) as Hlocal.
  pose proof (getDate_range today) as Hd.
  pose proof (DaysInMonth_range cutoffYear cutoffMonth Hcm) as Hlen.
  assert (cutoffMonth ≤ 10) as Hm10.
  { destruct (decide (cutoffMonth = 11)) as [->|]; [|lia].
    unfold DaysInMonth in Hday. case_decide; simpl in Hday; lia. }
  split; [done|].
  rewrite MakeDay_overflow in Hlocal by lia.
  pose proof (DaysInMonth_range cutoffYear (cutoffMonth + 1)) as Hnext.
  destruct (MakeDay_valid cutoffYear (cutoffMonth + 1)
              (getDate today - DaysInMonth cutoffYear cutoffMonth))
    as (Hy & Hm & Hdt); [lia|lia|].
  assert (getFullYear c = cutoffYear) as -> by (unfold getFullYear; by rewrite Hlocal).
  assert (getMonth c = cutoffMonth + 1) as -> by (unfold getMonth; by rewrite Hlocal).
  assert (getDate c = getDate today - DaysInMonth cutoffYear cutoffMonth) as ->
    by (unfold getDate at 1; by rewrite Hlocal).
  repeat split; lia.
Qed.

End ConstantZone.

Section InvalidCutoff.
Context `{Host}.
Open Scope Z_scope.

(** X15. When the cutoff is not a valid date (the window reaches beyond
    the range of [Date]) no day is kept: every comparison with an invalid
    date is false. *)
Theorem invalid_cutoff_keeps_nothing today (months : option Z) contributions :
  cutoffDate today (default 11 months) = None →
  filterLastNMonths today contributions months = [].
Proof.
  intros Hcut. unfold filterLastNMonths. rewrite Hcut.
  induction contributions as [|day contributions IH]; [done|].
  rewrite filter_cons_False; [done|].
  by destruct (newDateString (date day)).
Qed.

End InvalidCutoff.

(** The reading of years 0 to 99 as 1900 to 1999 at work: in June 2024 a
    window of 1924 years has its cutoff in the year 100, one of 1925 years
    in 1999. *)
Example cutoffDate_two_digit_year :
  @cutoffDate utcHost t_2024_06_15_noon (12 * 1924) = Some (-58997203200000)%Z
  ∧ @cutoffDate utcHost t_2024_06_15_noon (12 * 1925) = parseDateOnly "1999-06-15".
Proof. by vm_compute. Qed.

(** * Further properties of the gallery in the store *)

Section StoreSharing.
Context {Payload : Type}.
Local Abbreviation M := (Store.M Payload).
Local Abbreviation heap := (Store.heap Payload).
Implicit Types (h : heap) (l photos : Store.loc) (ls kept : list Store.loc).

Lemma filterS_sublist {A} (f : A → M bool) (xs : list A) h h' (r : list A) :
  Store.filterS f xs h = (h', Normal r) → sublist r xs.
Proof.
  revert h h' r. induction xs as [|x xs IH]; intros h h' r; simpl.
  - intros [= _ <-]. constructor.
  - unfold Store.bindS. destruct (f x h) as [h1 [b|]]; [|done].
    destruct (Store.filterS f xs h1) as [h2 [r'|]] eqn:Hrest; [|done].
    intros [= _ <-]. apply IH in Hrest.
    destruct b; [by apply sublist_skip|by apply sublist_cons].
Qed.

Lemma filterS_reads {A} (f : A → M bool) (xs : list A) h :
  (∀ x h, (f x h).1 = h) → (Store.filterS f xs h).1 = h.
Proof.
  intros Hf. induction xs as [|x xs IH]; [done|]. simpl. unfold Store.bindS.
  specialize (Hf x h). destruct (f x h) as [h1 [b|]]; simpl in Hf; subst h1; [|done].
  destruct (Store.filterS f xs h) as [h2 [r|]]; simpl in IH; by subst h2.
Qed.

(** X7. A selection by a tag other than "All", when it returns, has
    allocated one object and nothing else: a new array whose elements are
    references taken, in order, from the array [photos]. The photos shown
    are the very objects of the state; none is copied. *)
Theorem filteredPhotos_shares_photos h photos T h' l :
  T ≠ "All" →
  Store.filteredPhotos photos T h = (h', Normal l) →
  ∃ ls kept, h !! photos = Some (Store.OPhotos ls)
             ∧ sublist kept ls
             ∧ h' = h ++ [Store.OPhotos kept]
             ∧ l = length h.
Proof.
  intros HT. unfold Store.filteredPhotos. rewrite decide_False by done.
  unfold Store.bindS at 1, Store.derefPhotos, Store.bindS at 1, Store.deref.
  destruct (h !! photos) as [[| ls | |]|] eqn:Hphotos; try done. simpl.
  unfold Store.bindS at 1.
  set (f := λ l0 : Store.loc, Store.bindS (Store.derefPhoto l0)
                                (λ photo, Store.lift (tagsInclude T photo))).
  assert (∀ l0 h0, (f l0 h0).1 = h0) as Hf.
  { intros l0 h0. unfold f, Store.bindS, Store.derefPhoto, Store.bindS, Store.deref.
    by destruct (h0 !! l0) as [[]|]. }
  pose proof (filterS_reads f ls h Hf) as Hreads.
  destruct (Store.filterS f ls h) as [h1 [kept|]] eqn:Hrun; [|done].
  simpl in Hreads. subst h1.
  intros [= <- <-]. exists ls, kept. repeat split; [|done..].
  by apply (filterS_sublist f ls h h).
Qed.

End StoreSharing.

(** * The further properties at the worked examples *)

Lemma fetchPhotos_settles_example :
  Component.loading
    (Component.fetchPhotos (Component.FetchResponse false (Component.BodyJSON
       (Component.JArray exampleGallery))) Component.initialState []).1 = false
  ∧ Component.photos
      (Component.fetchPhotos (Component.FetchResponse false (Component.BodyJSON
         (Component.JArray exampleGallery))) Component.initialState []).1
    = Component.JArray [].
Proof.
  destruct (fetchPhotos_settles
              (Component.FetchResponse false (Component.BodyJSON
                 (Component.JArray exampleGallery)))
              Component.initialState []) as (Hloading & Hfailed & _).
  split; [exact Hloading|].
  destruct Hfailed as [Hphotos _]; [by left|]. exact Hphotos.
Defined.

Lemma GalleryClient_throws_iff_example :
  Component.GalleryClient "Gallery" loadedState (Some exampleParams) = TypeError.
Proof.
  apply (GalleryClient_throws_iff "Gallery" loadedState (Some exampleParams)).
  right. exists (exampleGallery ++ [untaggedPhoto]), untaggedPhoto.
  split; [reflexivity|]. split; [discriminate|].
  split; [|reflexivity]. rewrite list_elem_of_In. vm_compute. tauto.
Defined.

Lemma failed_fetch_shows_empty_gallery_example :
  Component.GalleryClient "Gallery"
    (Component.fetchPhotos (Component.FetchRejected "offline")
       (Component.initialState (Payload:=string)) []).1 (Some exampleParams)
  = Normal (Component.GalleryView "Gallery" "b" [VStr "All"] []).
Proof.
  apply (failed_fetch_shows_empty_gallery "Gallery"
           (Component.FetchRejected "offline") (Some exampleParams) []).
  exact I.
Defined.

Lemma no_tag_parameter_shows_all_example :
  Component.GalleryClient "Gallery" loadedState (Some [("page", "2")])
  = Normal (Component.GalleryView "Gallery" "All"
              (allTags (exampleGallery ++ [untaggedPhoto]))
              (exampleGallery ++ [untaggedPhoto])).
Proof.
  apply (no_tag_parameter_shows_all "Gallery" loadedState (Some [("page", "2")])).
  - right. exists [("page", "2")]. split; [reflexivity|].
    rewrite list_elem_of_In. vm_compute. intros [Hp|[]]. discriminate Hp.
  - reflexivity.
  - reflexivity.
Defined.

Lemma selectedTag_first_pair_example : Component.selectedTag (Some exampleParams) = "b".
Proof.
  destruct selectedTag_first_pair as (_ & _ & Hfirst).
  apply (Hfirst [("page", "2")] "b" [("tag", "a")]).
  rewrite list_elem_of_In. vm_compute. intros [Hp|[]]. discriminate Hp.
Defined.

Lemma unknown_tag_selects_nothing_example :
  VStr "c" ∉ allTags exampleGallery ↔ filteredPhotos exampleGallery "c" = Normal [].
Proof.
  apply (unknown_tag_selects_nothing exampleGallery "c").
  - repeat (constructor; [by eexists|]). constructor.
  - discriminate.
  - discriminate.
Defined.

Lemma filteredPhotos_shares_photos_example :
  ∃ ls kept, exampleStore !! 3 = Some (Store.OPhotos ls)
             ∧ sublist kept ls
             ∧ exampleStore ++ [Store.OPhotos [0; 1]] = exampleStore ++ [Store.OPhotos kept]
             ∧ 4 = length exampleStore.
Proof.
  apply (filteredPhotos_shares_photos exampleStore 3 "b").
  - discriminate.
  - vm_compute. reflexivity.
Defined.

Lemma allTags_skips_tagless_example :
  allTags (exampleGallery ++ untaggedPhoto :: []) = allTags (exampleGallery ++ []).
Proof.
  apply (allTags_skips_tagless exampleGallery untaggedPhoto []).
  intros v Hv. apply list_elem_of_In in Hv. destruct Hv.
Defined.

Lemma utcHost_constantOffset : @constantOffset utcHost 0.
Proof. intros t b. reflexivity. Defined.

Lemma cutoff_not_after_today_example : (1689379200000 ≤ t_2024_06_15_noon)%Z.
Proof.
  apply (@cutoff_not_after_today utcHost 0 utcHost_constantOffset
           t_2024_06_15_noon 11 1689379200000).
  - lia.
  - vm_compute. discriminate.
  - vm_compute. reflexivity.
Defined.

Lemma wider_window_keeps_more_example :
  sublist (@filterLastNMonths utcHost t_2024_06_15_noon [july14; july15; july16] (Some 3%Z))
          (@filterLastNMonths utcHost t_2024_06_15_noon [july14; july15; july16] (Some 11%Z)).
Proof.
  apply (@wider_window_keeps_more utcHost 0 utcHost_constantOffset
           t_2024_06_15_noon 3 11 [july14; july15; july16]).
  - lia.
  - vm_compute. discriminate.
  - eexists. vm_compute. reflexivity.
Defined.

Lemma cutoff_same_day_of_month_example :
  @getFullYear utcHost 1689379200000 = 2023%Z
  ∧ @getMonth utcHost 1689379200000 = 6%Z
  ∧ @getDate utcHost 1689379200000 = @getDate utcHost t_2024_06_15_noon.
Proof.
  destruct (@cutoff_same_day_of_month utcHost 0 utcHost_constantOffset
              t_2024_06_15_noon 11 6 2023 1689379200000)
    as (Hy & Hm & Hd & _).
  - lia.
  - vm_compute. reflexivity.
  - lia.
  - vm_compute. discriminate.
  - vm_compute. reflexivity.
  - split; [exact Hy|]. split; [exact Hm|exact Hd].
Defined.

Lemma cutoff_rolls_into_next_month_example :
  @getMonth utcHost 1709251200000 = (1 + 1)%Z
  ∧ @getDate utcHost 1709251200000
    = (@getDate utcHost t_2024_03_30 - DaysInMonth 2024 1)%Z.
Proof.
  destruct (@cutoff_rolls_into_next_month utcHost 0 utcHost_constantOffset
              t_2024_03_30 1 1 2024 1709251200000)
    as (_ & _ & Hm & Hd & _).
  - lia.
  - vm_compute. reflexivity.
  - lia.
  - vm_compute. reflexivity.
  - vm_compute. reflexivity.
  - split; [exact Hm|exact Hd].
Defined.

Lemma invalid_cutoff_keeps_nothing_example :
  @filterLastNMonths utcHost t_2024_06_15_noon [july14; july15; july16]
    (Some (12 * 280000)%Z) = [].
Proof.
  apply (@invalid_cutoff_keeps_nothing utcHost).
  unfold cutoffDate. rewrite adjustYear_closed. vm_compute. reflexivity.
Defined.
